(** * Scroll-driven animation timeline: a shallow embedding

    The program is a single JavaScript module that keeps a handful of
    module-level bindings ([scrollPercent], [sizes], [camera], [box],
    [torus], [renderer]) and mutates them from three event sources: the
    scroll listener, the resize listener and the per-frame [tick].

    JavaScript numbers are IEEE 754 binary64 values.  They are modelled by
    [spec_float] with [prec = 53] and [emax = 1024], so every arithmetic
    operation below rounds exactly as the engine does and every definition
    can be evaluated. *)

From Stdlib Require Import ZArith Bool List Lia.
From Stdlib Require Import Floats.SpecFloat.
Import ListNotations.

Local Open Scope Z_scope.

(** ** Numbers *)

Module Num.

Definition prec : Z := 53.
Definition emax : Z := 1024.

Definition number : Type := spec_float.

(** [a + b], [a - b], [a * b], [a / b] and unary minus. *)
Definition add (a b : number) : number := SFadd prec emax a b.
Definition sub (a b : number) : number := SFsub prec emax a b.
Definition mul (a b : number) : number := SFmul prec emax a b.
Definition div (a b : number) : number := SFdiv prec emax a b.
Definition neg (a : number) : number := SFopp a.

(** [a >= b], [a <= b], [a == b] and [a != b]; all are [false] on NaN
    except the last. *)
Definition gte (a b : number) : bool := SFleb b a.
Definition lte (a b : number) : bool := SFleb a b.
Definition equal (a b : number) : bool := SFeqb a b.
Definition notEqual (a b : number) : bool := negb (SFeqb a b).

(** An integer literal. *)
Definition of_Z (n : Z) : number := binary_normalize prec emax n 0 false.

(** The literals [0.5], [0.1] and [0.01]: the doubles nearest to the
    decimal fractions, obtained by one correctly rounded division. *)
Definition half : number := Eval vm_compute in div (of_Z 1) (of_Z 2).
Definition tenth : number := Eval vm_compute in div (of_Z 1) (of_Z 10).
Definition hundredth : number := Eval vm_compute in div (of_Z 1) (of_Z 100).

(** [Math.PI], the double 0x400921FB54442D18. *)
Definition PI : number := S754_finite false 7074237752028440 (-51).

(** [Number.MAX_VALUE] and [Number.MIN_VALUE]. *)
Definition MAX_VALUE : number := S754_finite false 9007199254740991 971.
Definition MIN_VALUE : number := S754_finite false 1 (-1074).
Definition Infinity : number := S754_infinity false.
Definition NaN : number := S754_nan.

(** [Number.isFinite]. *)
Definition isFinite (a : number) : bool :=
  match a with
  | S754_zero _ | S754_finite _ _ _ => true
  | S754_infinity _ | S754_nan => false
  end.

Definition isZero (a : number) : bool :=
  match a with
  | S754_zero _ => true
  | _ => false
  end.

(** A non-zero number or an infinity. *)
Definition isNonzero (a : number) : bool :=
  match a with
  | S754_finite _ _ _ | S754_infinity _ => true
  | S754_zero _ | S754_nan => false
  end.

(** A zero, or a number of magnitude at least 2^-1021 (exponent above the
    lowest one): multiplying it by 0.5 loses no bit. *)
Definition halvesExactly (a : number) : bool :=
  match a with
  | S754_zero _ => true
  | S754_finite _ _ e => -1074 <? e
  | S754_infinity _ | S754_nan => false
  end.

(** The values an engine can hold: finite ones carry the canonical
    mantissa and exponent of binary64. *)
Definition valid (a : number) : bool := valid_binary prec emax a.

End Num.

Import Num.

Declare Scope js_scope.
Delimit Scope js_scope with js.
Infix "+" := add : js_scope.
Infix "-" := sub : js_scope.
Infix "*" := mul : js_scope.
Infix "/" := div : js_scope.
Infix ">=" := gte : js_scope.
Infix "<=" := lte : js_scope.
Infix "==" := equal (at level 70, no associativity) : js_scope.
Infix "!=" := notEqual (at level 70, no associativity) : js_scope.
Notation "# n" := (of_Z n) (at level 1, n at level 0, format "# n") : js_scope.

(** ** Scene objects *)

Module Vector3.
Record t : Type := mk { x : number; y : number; z : number }.
Definition set_x (v : t) (a : number) : t := mk a (y v) (z v).
Definition set_y (v : t) (a : number) : t := mk (x v) a (z v).
Definition set_z (v : t) (a : number) : t := mk (x v) (y v) a.
End Vector3.

(** A mesh as far as this program touches it: [position] and [rotation]. *)
Module Mesh.
Record t : Type := mk { position : Vector3.t; rotation : Vector3.t }.
Definition set_position (m : t) (p : Vector3.t) : t := mk p (rotation m).
Definition set_rotation (m : t) (r : Vector3.t) : t := mk (position m) r.
End Mesh.

(** The orientation of the camera is owned by the scene library.
    [Object3D.lookAt] derives it from the camera's position at the time
    of the call and from the target, so the orientation is recorded as
    that pair; a camera that never looked anywhere keeps the default. *)
Inductive Orientation : Type :=
| DefaultOrientation
| LookingAt (eye target : Vector3.t).

Module Camera.
Record t : Type := mk {
  position : Vector3.t;
  orientation : Orientation;
  aspect : number;
  (** the aspect ratio the projection matrix was last computed from *)
  projectionAspect : number
}.
Definition set_position (c : t) (p : Vector3.t) : t :=
  mk p (orientation c) (aspect c) (projectionAspect c).
Definition lookAt (c : t) (target : Vector3.t) : t :=
  mk (position c) (LookingAt (position c) target) (aspect c)
     (projectionAspect c).
Definition set_aspect (c : t) (a : number) : t :=
  mk (position c) (orientation c) a (projectionAspect c).
Definition updateProjectionMatrix (c : t) : t :=
  mk (position c) (orientation c) (aspect c) (aspect c).
End Camera.

Module Sizes.
Record t : Type := mk { width : number; height : number }.
End Sizes.

Module Renderer.
Record t : Type := mk {
  width : number;
  height : number;
  pixelRatio : number;
  disposed : bool
}.
Definition setSize (r : t) (w h : number) : t :=
  mk w h (pixelRatio r) (disposed r).
Definition setPixelRatio (r : t) (p : number) : t :=
  mk (width r) (height r) p (disposed r).
Definition dispose (r : t) : t :=
  mk (width r) (height r) (pixelRatio r) true.
End Renderer.

(** ** Events *)

Inductive EventType : Type := scroll | resize.

(** The two listener functions of the module, by name. *)
Inductive Listener : Type := handleScroll | handleResize.

Definition EventType_eqb (a b : EventType) : bool :=
  match a, b with
  | scroll, scroll | resize, resize => true
  | _, _ => false
  end.

Definition Listener_eqb (a b : Listener) : bool :=
  match a, b with
  | handleScroll, handleScroll | handleResize, handleResize => true
  | _, _ => false
  end.

(** What the handlers read from [window] and [document.documentElement]. *)
Record Env : Type := {
  scrollTop : number;
  scrollHeight : number;
  clientHeight : number;
  innerWidth : number;
  innerHeight : number;
  devicePixelRatio : number
}.

(** ** Module state *)

Record State : Type := mkState {
  scrollPercent : number;
  sizes : Sizes.t;
  camera : Camera.t;
  box : Mesh.t;
  torus : Mesh.t;
  renderer : Renderer.t;
  (** [window]'s listener list, in registration order *)
  listeners : list (EventType * Listener);
  (** the four geometry and material handles released by [cleanup] *)
  boxGeometryDisposed : bool;
  boxMaterialDisposed : bool;
  torusGeometryDisposed : bool;
  torusMaterialDisposed : bool
}.

Definition set_scrollPercent (st : State) (p : number) : State :=
  mkState p (sizes st) (camera st) (box st) (torus st) (renderer st)
          (listeners st) (boxGeometryDisposed st) (boxMaterialDisposed st)
          (torusGeometryDisposed st) (torusMaterialDisposed st).

Definition set_sizes (st : State) (s : Sizes.t) : State :=
  mkState (scrollPercent st) s (camera st) (box st) (torus st) (renderer st)
          (listeners st) (boxGeometryDisposed st) (boxMaterialDisposed st)
          (torusGeometryDisposed st) (torusMaterialDisposed st).

Definition set_camera (st : State) (c : Camera.t) : State :=
  mkState (scrollPercent st) (sizes st) c (box st) (torus st) (renderer st)
          (listeners st) (boxGeometryDisposed st) (boxMaterialDisposed st)
          (torusGeometryDisposed st) (torusMaterialDisposed st).

Definition set_box (st : State) (b : Mesh.t) : State :=
  mkState (scrollPercent st) (sizes st) (camera st) b (torus st) (renderer st)
          (listeners st) (boxGeometryDisposed st) (boxMaterialDisposed st)
          (torusGeometryDisposed st) (torusMaterialDisposed st).

Definition set_torus (st : State) (t : Mesh.t) : State :=
  mkState (scrollPercent st) (sizes st) (camera st) (box st) t (renderer st)
          (listeners st) (boxGeometryDisposed st) (boxMaterialDisposed st)
          (torusGeometryDisposed st) (torusMaterialDisposed st).

Definition set_renderer (st : State) (r : Renderer.t) : State :=
  mkState (scrollPercent st) (sizes st) (camera st) (box st) (torus st) r
          (listeners st) (boxGeometryDisposed st) (boxMaterialDisposed st)
          (torusGeometryDisposed st) (torusMaterialDisposed st).

Definition set_listeners (st : State) (l : list (EventType * Listener))
  : State :=
  mkState (scrollPercent st) (sizes st) (camera st) (box st) (torus st)
          (renderer st) l (boxGeometryDisposed st) (boxMaterialDisposed st)
          (torusGeometryDisposed st) (torusMaterialDisposed st).

(** Assignments to single coordinates, as the timeline writes them. *)
Definition set_box_position_z (st : State) (a : number) : State :=
  set_box st (Mesh.set_position (box st)
                (Vector3.set_z (Mesh.position (box st)) a)).

Definition set_box_rotation_x (st : State) (a : number) : State :=
  set_box st (Mesh.set_rotation (box st)
                (Vector3.set_x (Mesh.rotation (box st)) a)).

Definition set_box_rotation_y (st : State) (a : number) : State :=
  set_box st (Mesh.set_rotation (box st)
                (Vector3.set_y (Mesh.rotation (box st)) a)).

Definition set_box_rotation_z (st : State) (a : number) : State :=
  set_box st (Mesh.set_rotation (box st)
                (Vector3.set_z (Mesh.rotation (box st)) a)).

Definition set_torus_position_z (st : State) (a : number) : State :=
  set_torus st (Mesh.set_position (torus st)
                  (Vector3.set_z (Mesh.position (torus st)) a)).

Definition set_camera_position_x (st : State) (a : number) : State :=
  set_camera st (Camera.set_position (camera st)
                   (Vector3.set_x (Camera.position (camera st)) a)).

Definition set_camera_position_y (st : State) (a : number) : State :=
  set_camera st (Camera.set_position (camera st)
                   (Vector3.set_y (Camera.position (camera st)) a)).

Definition set_camera_position_z (st : State) (a : number) : State :=
  set_camera st (Camera.set_position (camera st)
                   (Vector3.set_z (Camera.position (camera st)) a)).

(** ** Constants *)

Definition BOX_INITIAL_POSITION : Vector3.t :=
  (Vector3.mk #0 half (neg #15))%js.
Definition BOX_INITIAL_ROTATION : Vector3.t :=
  (Vector3.mk #1 #1 #0)%js.
Definition TORUS_INITIAL_POSITION : Vector3.t :=
  (Vector3.mk #0 #1 #10)%js.
Definition CAMERA_DEFAULT_POSITION : Vector3.t :=
  (Vector3.mk #0 #1 #10)%js.

Module Range.
Record t : Type := mk { start : number; end_ : number }.
End Range.

Module ANIMATION_RANGES.
Definition INTRO : Range.t := (Range.mk #0 #40)%js.
Definition ROTATION : Range.t := (Range.mk #40 #60)%js.
Definition CAMERA_MOVE : Range.t := (Range.mk #60 #80)%js.
Definition FINAL_SPIN : Range.t := (Range.mk #80 #100)%js.
End ANIMATION_RANGES.

(** ** Utility functions *)

Definition lerp (start end_ alpha : number) : number :=
  ((#1 - alpha) * start + alpha * end_)%js.

(** [scalePercent] reads the module-level [scrollPercent]; here it is the
    third argument. *)
Definition scalePercent (start end_ : number) (scrollPercent : number)
  : number :=
  ((scrollPercent - start) / (end_ - start))%js.

Definition setCameraToDefault (st : State) : State :=
  let st := set_camera st
              (Camera.lookAt (camera st) (Mesh.position (box st))) in
  set_camera st
    (Camera.set_position (camera st)
       (Vector3.mk (Vector3.x CAMERA_DEFAULT_POSITION)
                   (Vector3.y CAMERA_DEFAULT_POSITION)
                   (Vector3.z CAMERA_DEFAULT_POSITION))).

(** ** The timeline *)

(** An element of [animationScripts].  The closure [function] reads and
    writes the module bindings, hence [State -> State]. *)
Module Animation.
Record t : Type := mk {
  start : number;
  end_ : number;
  function : State -> State
}.
End Animation.

(** The three entries the two source files share. *)
Definition INTRO_entry : Animation.t :=
  Animation.mk
    (Range.start ANIMATION_RANGES.INTRO)
    (Range.end_ ANIMATION_RANGES.INTRO)
    (fun st =>
       let st := setCameraToDefault st in
       let st := set_box_position_z st
                   (lerp (neg #15) #2
                      (scalePercent (Range.start ANIMATION_RANGES.INTRO)
                         (Range.end_ ANIMATION_RANGES.INTRO)
                         (scrollPercent st)))%js in
       set_torus_position_z st
         (lerp #10 (neg #20)
            (scalePercent (Range.start ANIMATION_RANGES.INTRO)
               (Range.end_ ANIMATION_RANGES.INTRO)
               (scrollPercent st)))%js).

Definition ROTATION_entry : Animation.t :=
  Animation.mk
    (Range.start ANIMATION_RANGES.ROTATION)
    (Range.end_ ANIMATION_RANGES.ROTATION)
    (fun st =>
       let st := setCameraToDefault st in
       set_box_rotation_z st
         (lerp #1 PI
            (scalePercent (Range.start ANIMATION_RANGES.ROTATION)
               (Range.end_ ANIMATION_RANGES.ROTATION)
               (scrollPercent st)))%js).

Definition CAMERA_MOVE_entry : Animation.t :=
  Animation.mk
    (Range.start ANIMATION_RANGES.CAMERA_MOVE)
    (Range.end_ ANIMATION_RANGES.CAMERA_MOVE)
    (fun st =>
       let st := set_camera st
                   (Camera.lookAt (camera st) (Mesh.position (box st))) in
       let st := set_camera_position_x st
                   (lerp #0 (neg #15)
                      (scalePercent
                         (Range.start ANIMATION_RANGES.CAMERA_MOVE)
                         (Range.end_ ANIMATION_RANGES.CAMERA_MOVE)
                         (scrollPercent st)))%js in
       let st := set_camera_position_y st
                   (lerp #1 (neg #15)
                      (scalePercent
                         (Range.start ANIMATION_RANGES.CAMERA_MOVE)
                         (Range.end_ ANIMATION_RANGES.CAMERA_MOVE)
                         (scrollPercent st)))%js in
       set_camera_position_z st
         (lerp #10 #25
            (scalePercent (Range.start ANIMATION_RANGES.CAMERA_MOVE)
               (Range.end_ ANIMATION_RANGES.CAMERA_MOVE)
               (scrollPercent st)))%js).

(** The loop test [scrollPercent >= animation.start && scrollPercent <=
    animation.end]. *)
Definition isInRange (st : State) (animation : Animation.t) : bool :=
  ((scrollPercent st >= Animation.start animation)
   && (scrollPercent st <= Animation.end_ animation))%js.

(** *** The scheduler of [src/unnamed/part_000]

    This is the file the specification describes: the loop leaves at the
    first entry in range, FINAL_SPIN interpolates from
    [BOX_INITIAL_ROTATION] to [Math.PI * 4], and an idle spin follows the
    loop. *)
Module Part000.

Definition FINAL_SPIN_entry : Animation.t :=
  Animation.mk
    (Range.start ANIMATION_RANGES.FINAL_SPIN)
    (Range.end_ ANIMATION_RANGES.FINAL_SPIN)
    (fun st =>
       let progress :=
         scalePercent (Range.start ANIMATION_RANGES.FINAL_SPIN)
           (Range.end_ ANIMATION_RANGES.FINAL_SPIN) (scrollPercent st) in
       let st := set_box_rotation_x st
                   (lerp (Vector3.x BOX_INITIAL_ROTATION) (PI * #4)
                      progress)%js in
       set_box_rotation_y st
         (lerp (Vector3.y BOX_INITIAL_ROTATION) (PI * #4) progress)%js).

Definition animationScripts : list Animation.t :=
  [INTRO_entry; ROTATION_entry; CAMERA_MOVE_entry; FINAL_SPIN_entry].

(** [for (const animation of scripts) { if (isInRange) { animation.function();
    break; } }], started at array index [i].  Besides the new state the
    loop reports the indices of the entries whose function it called. *)
Fixpoint for_of (scripts : list Animation.t) (i : nat) (st : State)
  : list nat * State :=
  match scripts with
  | [] => ([], st)
  | animation :: rest =>
      if isInRange st animation
      then ([i], Animation.function animation st)
      else for_of rest (S i) st
  end.

(** [if (scrollPercent >= 100) { box.rotation.x += 0.01;
    box.rotation.y += 0.01; }] *)
Definition idleSpin (st : State) : State :=
  if (scrollPercent st >= #100)%js then
    let st := set_box_rotation_x st
                (Vector3.x (Mesh.rotation (box st)) + hundredth)%js in
    set_box_rotation_y st
      (Vector3.y (Mesh.rotation (box st)) + hundredth)%js
  else st.

(** One scheduler tick, with the indices of the entries it ran. *)
Definition playScrollAnimation_traced (st : State) : list nat * State :=
  let '(ran, st) := for_of animationScripts 0 st in
  (ran, idleSpin st).

Definition playScrollAnimation (st : State) : State :=
  snd (playScrollAnimation_traced st).

Definition executed (st : State) : list nat :=
  fst (playScrollAnimation_traced st).

End Part000.

(** *** The scheduler of [src/main.js]

    The other source file differs in these two places only: FINAL_SPIN
    interpolates from the current rotation to [Math.PI * 2], and the
    scheduler is a [forEach] that calls every entry in range and has no
    idle spin. *)
Module MainJs.

Definition FINAL_SPIN_entry : Animation.t :=
  Animation.mk
    (Range.start ANIMATION_RANGES.FINAL_SPIN)
    (Range.end_ ANIMATION_RANGES.FINAL_SPIN)
    (fun st =>
       let targetRotation := (PI * #2)%js in
       let progress :=
         scalePercent (Range.start ANIMATION_RANGES.FINAL_SPIN)
           (Range.end_ ANIMATION_RANGES.FINAL_SPIN) (scrollPercent st) in
       let st := set_box_rotation_x st
                   (lerp (Vector3.x (Mesh.rotation (box st)))
                      targetRotation progress) in
       set_box_rotation_y st
         (lerp (Vector3.y (Mesh.rotation (box st))) targetRotation
            progress)).

Definition animationScripts : list Animation.t :=
  [INTRO_entry; ROTATION_entry; CAMERA_MOVE_entry; FINAL_SPIN_entry].

(** [scripts.forEach((animation) => { if (...) animation.function(); })] *)
Fixpoint forEach (scripts : list Animation.t) (i : nat) (st : State)
  : list nat * State :=
  match scripts with
  | [] => ([], st)
  | animation :: rest =>
      if isInRange st animation
      then let '(ran, st') :=
             forEach rest (S i) (Animation.function animation st) in
           (i :: ran, st')
      else forEach rest (S i) st
  end.

Definition playScrollAnimation_traced (st : State) : list nat * State :=
  forEach animationScripts 0 st.

Definition playScrollAnimation (st : State) : State :=
  snd (playScrollAnimation_traced st).

Definition executed (st : State) : list nat :=
  fst (playScrollAnimation_traced st).

End MainJs.

(** ** Event listeners and teardown *)

(** [scrollPercent = scrollTop / (scrollHeight - clientHeight) * 100] *)
Definition run_handleScroll (env : Env) (st : State) : State :=
  set_scrollPercent st
    (scrollTop env / (scrollHeight env - clientHeight env) * #100)%js.

Definition run_handleResize (env : Env) (st : State) : State :=
  let st := set_sizes st (Sizes.mk (innerWidth env) (innerHeight env)) in
  let st := set_camera st
              (Camera.set_aspect (camera st)
                 (Sizes.width (sizes st) / Sizes.height (sizes st))%js) in
  let st := set_camera st (Camera.updateProjectionMatrix (camera st)) in
  let st := set_renderer st
              (Renderer.setSize (renderer st) (Sizes.width (sizes st))
                 (Sizes.height (sizes st))) in
  set_renderer st
    (Renderer.setPixelRatio (renderer st) (devicePixelRatio env)).

Definition call (l : Listener) (env : Env) (st : State) : State :=
  match l with
  | handleScroll => run_handleScroll env st
  | handleResize => run_handleResize env st
  end.

Definition same_registration (a b : EventType * Listener) : bool :=
  EventType_eqb (fst a) (fst b) && Listener_eqb (snd a) (snd b).

(** [window.addEventListener(type, listener)]: a registration already in
    the list is not added again. *)
Definition addEventListener (type : EventType) (l : Listener) (st : State)
  : State :=
  if existsb (same_registration (type, l)) (listeners st) then st
  else set_listeners st (listeners st ++ [(type, l)]).

(** [window.removeEventListener(type, listener)] *)
Definition removeEventListener (type : EventType) (l : Listener)
  (st : State) : State :=
  set_listeners st
    (filter (fun r => negb (same_registration (type, l) r)) (listeners st)).

(** The browser delivers an event of kind [type]: every listener
    registered for it when the dispatch starts is called, in order. *)
Definition dispatchEvent (type : EventType) (env : Env) (st : State)
  : State :=
  fold_left
    (fun st r => if EventType_eqb (fst r) type then call (snd r) env st
                 else st)
    (listeners st) st.

Definition dispose_all (st : State) : State :=
  mkState (scrollPercent st) (sizes st) (camera st) (box st) (torus st)
          (Renderer.dispose (renderer st)) (listeners st)
          true true true true.

Definition cleanup (st : State) : State :=
  let st := removeEventListener scroll handleScroll st in
  let st := removeEventListener resize handleResize st in
  dispose_all st.

(** The state the module body leaves behind, up to the first [tick]. *)
Definition init (env : Env) : State :=
  let aspect0 := (innerWidth env / innerHeight env)%js in
  let st :=
    mkState #0%js
      (Sizes.mk (innerWidth env) (innerHeight env))
      (Camera.mk (Vector3.mk #0 #0 #0)%js DefaultOrientation aspect0 aspect0)
      (Mesh.mk BOX_INITIAL_POSITION BOX_INITIAL_ROTATION)
      (Mesh.mk TORUS_INITIAL_POSITION (Vector3.mk #0 #0 #0)%js)
      (Renderer.mk (innerWidth env) (innerHeight env)
         (devicePixelRatio env) false)
      [] false false false false in
  let st := addEventListener scroll handleScroll st in
  let st := addEventListener resize handleResize st in
  setCameraToDefault st.

(** ** Vocabulary of the statements *)

(** The transforms the renderer reads: both meshes and the camera's
    position and orientation. *)
Definition scene (st : State)
  : Mesh.t * Mesh.t * Vector3.t * Orientation :=
  (box st, torus st, Camera.position (camera st),
   Camera.orientation (camera st)).

(** [0 <= p && p <= 100], the union of the four ranges. *)
Definition inTimeline (p : number) : bool :=
  ((p >= #0) && (p <= #100))%js.

(** What is not a transform of the scene: the progress, the viewport and
    projection state, the renderer and the listener list. *)
Definition besideScene (st : State)
  : number * Sizes.t * number * number * Renderer.t
    * list (EventType * Listener) :=
  (scrollPercent st, sizes st, Camera.aspect (camera st),
   Camera.projectionAspect (camera st), renderer st, listeners st).

(** The coordinates no timeline entry assigns, and everything beside the
    scene. *)
Definition untouched (st st' : State) : Prop :=
  Vector3.x (Mesh.position (box st')) = Vector3.x (Mesh.position (box st))
  /\ Vector3.y (Mesh.position (box st')) = Vector3.y (Mesh.position (box st))
  /\ Vector3.x (Mesh.position (torus st'))
     = Vector3.x (Mesh.position (torus st))
  /\ Vector3.y (Mesh.position (torus st'))
     = Vector3.y (Mesh.position (torus st))
  /\ Mesh.rotation (torus st') = Mesh.rotation (torus st)
  /\ besideScene st' = besideScene st.

(** A browser window used by the examples. *)
Definition sampleEnv : Env :=
  (Build_Env #0 #3000 #800 #1280 #800 #1)%js.

Definition scrolledEnv : Env :=
  (Build_Env #1100 #3000 #800 #1024 #768 #2)%js.

(** ** The page as an event loop *)

(** [tick], the frame callback of [src/unnamed/part_000]: it re-arms itself
    with [requestAnimationFrame], runs the scheduler and renders.
    Rendering reads the scene and writes none of the module bindings. *)
Definition tick (st : State) : State := Part000.playScrollAnimation st.

(** What can happen to the loaded module: the browser delivers a scroll
    or a resize event (with the window metrics of that moment), a frame
    is due, or the embedding page calls the exported [cleanup]. *)
Inductive Event : Type :=
| ScrollEvent (env : Env)
| ResizeEvent (env : Env)
| Frame
| Teardown.

Definition step (st : State) (ev : Event) : State :=
  match ev with
  | ScrollEvent env => dispatchEvent scroll env st
  | ResizeEvent env => dispatchEvent resize env st
  | Frame => tick st
  | Teardown => cleanup st
  end.

Definition run (evs : list Event) (st : State) : State :=
  fold_left step evs st.

Definition isTeardown (ev : Event) : bool :=
  match ev with
  | Teardown => true
  | _ => false
  end.

(** The viewport bookkeeping agrees with itself: the projection was
    computed from the current aspect, the aspect is [width / height] of
    [sizes], and the renderer has the size of [sizes]. *)
Definition viewportConsistent (st : State) : Prop :=
  Camera.projectionAspect (camera st) = Camera.aspect (camera st)
  /\ Camera.aspect (camera st)
     = (Sizes.width (sizes st) / Sizes.height (sizes st))%js
  /\ Renderer.width (renderer st) = Sizes.width (sizes st)
  /\ Renderer.height (renderer st) = Sizes.height (sizes st).

(** The coordinates that keep their construction values. *)
Definition staticCoordinates (st : State) : Prop :=
  Vector3.x (Mesh.position (box st)) = Vector3.x BOX_INITIAL_POSITION
  /\ Vector3.y (Mesh.position (box st)) = Vector3.y BOX_INITIAL_POSITION
  /\ Vector3.x (Mesh.position (torus st)) = Vector3.x TORUS_INITIAL_POSITION
  /\ Vector3.y (Mesh.position (torus st)) = Vector3.y TORUS_INITIAL_POSITION
  /\ Mesh.rotation (torus st) = (Vector3.mk #0 #0 #0)%js.

(** The index of the first range whose upper bound is not below [p]. *)
Definition firstRange (p : number) : nat :=
  if (p <= #40)%js then 0%nat
  else if (p <= #60)%js then 1%nat
  else if (p <= #80)%js then 2%nat
  else 3%nat.

(** The entry the loop of [part_000] stops at, if any. *)
Definition activeEntry (st : State) : option Animation.t :=
  find (isInRange st) Part000.animationScripts.

(** Is the number a NaN? *)
Definition isNaN (a : number) : bool :=
  match a with
  | S754_nan => true
  | _ => false
  end.

(** ** Proof support *)

Arguments lerp : simpl never.
Arguments scalePercent : simpl never.
Arguments add : simpl never.
Arguments sub : simpl never.
Arguments mul : simpl never.
Arguments div : simpl never.
Arguments of_Z : simpl never.
Arguments gte : simpl never.
Arguments lte : simpl never.

(** Case analysis on membership in a four-element timeline. *)
Ltac each_entry H :=
  simpl in H; destruct H as [H|[H|[H|[H|[]]]]]; subst.

(** ** Binary64 arithmetic *)

Lemma fexp_binary64 (x : Z) : fexp prec emax x = Z.max (x - 53) (-1074).
Proof. reflexivity. Qed.

Lemma digits2_pos_bounds (m : positive) :
  2 ^ (Zpos (digits2_pos m) - 1) <= Zpos m < 2 ^ Zpos (digits2_pos m).
Proof.
  induction m as [m IH|m IH|]; simpl digits2_pos.
  - rewrite Pos2Z.inj_succ.
    replace (Z.succ (Zpos (digits2_pos m)) - 1)
      with (Z.succ (Zpos (digits2_pos m) - 1)) by lia.
    rewrite !Z.pow_succ_r by lia. lia.
  - rewrite Pos2Z.inj_succ.
    replace (Z.succ (Zpos (digits2_pos m)) - 1)
      with (Z.succ (Zpos (digits2_pos m) - 1)) by lia.
    rewrite !Z.pow_succ_r by lia. lia.
  - simpl. lia.
Qed.

Lemma digits2_pos_unique (m : positive) (d : Z) :
  2 ^ (d - 1) <= Zpos m < 2 ^ d -> Zpos (digits2_pos m) = d.
Proof.
  intros [Hlo Hhi].
  destruct (digits2_pos_bounds m) as [Blo Bhi].
  assert (0 < d).
  { destruct (Z_lt_le_dec 0 d) as [|Hd]; [assumption|].
    assert (2 ^ d <= 2 ^ 0) by (destruct (Z_lt_le_dec d 0);
      [rewrite Z.pow_neg_r by lia; simpl; lia
      | apply Z.pow_le_mono_r; lia]).
    simpl in *. lia. }
  destruct (Z.lt_trichotomy (Zpos (digits2_pos m)) d) as [Hlt|[Heq|Hgt]].
  - assert (2 ^ Zpos (digits2_pos m) <= 2 ^ (d - 1))
      by (apply Z.pow_le_mono_r; lia). lia.
  - exact Heq.
  - assert (2 ^ d <= 2 ^ (Zpos (digits2_pos m) - 1))
      by (apply Z.pow_le_mono_r; lia). lia.
Qed.

Lemma digits2_pos_shift (m : positive) (k : Z) :
  0 <= k ->
  Zdigits2 (Zpos m * 2 ^ k) = Zpos (digits2_pos m) + k.
Proof.
  intros Hk.
  assert (Hp : 0 < 2 ^ k) by (apply Z.pow_pos_nonneg; lia).
  destruct (Zpos m * 2 ^ k) as [|q|q] eqn:E; try lia.
  unfold Zdigits2. apply digits2_pos_unique. rewrite <- E.
  destruct (digits2_pos_bounds m) as [Blo Bhi].
  replace (Zpos (digits2_pos m) + k - 1)
    with ((Zpos (digits2_pos m) - 1) + k) by lia.
  rewrite !Z.pow_add_r by lia. split; nia.
Qed.

Lemma pos_mul_pow2 (q : positive) (k : Z) :
  0 <= k -> exists q' : positive, Zpos q' = Zpos q * 2 ^ k.
Proof.
  intros Hk. exists (Z.to_pos (Zpos q * 2 ^ k)).
  rewrite Z2Pos.id; [reflexivity|].
  assert (0 < 2 ^ k) by (apply Z.pow_pos_nonneg; lia). nia.
Qed.

Lemma pow2_double (k : positive) : 2 ^ Zpos k~0 = 2 ^ Zpos k * 2 ^ Zpos k.
Proof. rewrite (Pos2Z.inj_xO k), <- Z.pow_add_r by lia. f_equal. lia. Qed.

Lemma pow2_double_succ (k : positive) :
  2 ^ Zpos k~1 = 2 * (2 ^ Zpos k * 2 ^ Zpos k).
Proof.
  rewrite (Pos2Z.inj_xI k), Z.pow_add_r, <- pow2_double by lia.
  rewrite (Pos2Z.inj_xO k). change (2 ^ 1) with 2. ring.
Qed.

(** Shifting out [k] zero bits is exact. *)
Lemma iter_shr_1_exact (k q : positive) :
  iter_pos shr_1 k (Build_shr_record (Zpos q * 2 ^ Zpos k) false false)
  = Build_shr_record (Zpos q) false false.
Proof.
  revert q. induction k as [k IH|k IH|]; intros q.
  - destruct (pos_mul_pow2 q (Zpos k)) as [q1 H1]; [lia|].
    destruct (pos_mul_pow2 q1 (Zpos k)) as [q2 H2]; [lia|].
    replace (Zpos q * 2 ^ Zpos k~1) with (Zpos q2~0)
      by (rewrite pow2_double_succ, (Pos2Z.inj_xO q2), H2, H1; ring).
    cbn [iter_pos]. change (shr_1 (Build_shr_record (Zpos q2~0) false false))
      with (Build_shr_record (Zpos q2) false false).
    rewrite H2, IH, H1. apply IH.
  - destruct (pos_mul_pow2 q (Zpos k)) as [q1 H1]; [lia|].
    replace (Zpos q * 2 ^ Zpos k~0) with (Zpos q1 * 2 ^ Zpos k)
      by (rewrite pow2_double, H1; ring).
    cbn [iter_pos]. rewrite IH, H1. apply IH.
  - change (2 ^ 1) with 2. rewrite Z.mul_comm. reflexivity.
Qed.

(** Rounding a canonical mantissa given with [k] extra low zero bits. *)
Lemma binary_round_aux_canonical (s : bool) (m : positive) (e k : Z) :
  0 <= k ->
  canonical_mantissa prec emax m e = true ->
  binary_round_aux prec emax s (Zpos m * 2 ^ k) (e - k) loc_Exact
  = if e <=? 971 then S754_finite s m e else S754_infinity s.
Proof.
  intros Hk Hc. unfold canonical_mantissa in Hc. apply Z.eqb_eq in Hc.
  unfold binary_round_aux, shr_fexp.
  rewrite digits2_pos_shift by exact Hk.
  replace (Zpos (digits2_pos m) + k + (e - k))
    with (Zpos (digits2_pos m) + e) by lia.
  rewrite Hc. replace (e - (e - k)) with k by lia.
  assert (Hfinal :
    (let '(mrs'', e'') :=
       shr (shr_record_of_loc (Zpos m) loc_Exact) e
         (fexp prec emax (Zdigits2 (Zpos m) + e) - e) in
     match shr_m mrs'' with
     | 0 => S754_zero s
     | Zpos m0 =>
         if e'' <=? emax - prec then S754_finite s m0 e''
         else S754_infinity s
     | Zneg _ => S754_nan
     end) = if e <=? 971 then S754_finite s m e else S754_infinity s).
  { cbn [Zdigits2]. rewrite Hc, Z.sub_diag.
    cbn [shr shr_record_of_loc shr_m]. reflexivity. }
  destruct k as [|k|k]; try lia.
  - change (2 ^ 0) with 1. rewrite Z.mul_1_r.
    cbn [shr shr_record_of_loc shr_m loc_of_shr_record round_nearest_even].
    replace (e - 0) with e by lia. exact Hfinal.
  - cbn [shr shr_record_of_loc]. rewrite iter_shr_1_exact.
    cbn [shr_m loc_of_shr_record round_nearest_even].
    replace (e - Zpos k + Zpos k) with e by lia. exact Hfinal.
Qed.

(** Rounding a value that already is a binary64 number, given with [k]
    extra low zero bits, returns that number. *)
Lemma binary_round_aux_exact (s : bool) (m : positive) (e k : Z) :
  0 <= k ->
  bounded prec emax m e = true ->
  binary_round_aux prec emax s (Zpos m * 2 ^ k) (e - k) loc_Exact
  = S754_finite s m e.
Proof.
  intros Hk Hb. unfold bounded in Hb.
  apply andb_true_iff in Hb. destruct Hb as [Hc He].
  rewrite (binary_round_aux_canonical s m e k Hk Hc).
  change (emax - prec) with 971 in He. rewrite He. reflexivity.
Qed.

(** [1 * a] is [a]. *)
Lemma mul_one_l (a : number) :
  valid a = true -> isFinite a = true -> (#1 * a)%js = a.
Proof.
  destruct a as [s|s| |s m e]; try discriminate; intros Hv _.
  - destruct s; reflexivity.
  - change (#1)%js with (S754_finite false 4503599627370496 (-52)).
    unfold mul. cbn [SFmul xorb].
    replace (Zpos (4503599627370496 * m)) with (Zpos m * 2 ^ 52)
      by (rewrite Pos2Z.inj_mul; change (2 ^ 52) with 4503599627370496;
          ring).
    replace (-52 + e) with (e - 52) by lia.
    apply binary_round_aux_exact; [lia | exact Hv].
Qed.

(** [0 * a] is a zero. *)
Lemma mul_zero_l (a : number) :
  isFinite a = true -> isZero (#0 * a)%js = true.
Proof. destruct a; try discriminate; reflexivity. Qed.

Lemma SFcompare_finite_Eq (s1 s2 : bool) (m1 m2 : positive) (e1 e2 : Z) :
  SFeqb (S754_finite s1 m1 e1) (S754_finite s2 m2 e2) = true ->
  s1 = s2 /\ m1 = m2 /\ e1 = e2.
Proof.
  unfold SFeqb, SFcompare.
  rewrite Pos.compare_cont_spec. cbn [Pos.switch_Eq].
  destruct s1, s2; try discriminate;
    destruct (Z.compare_spec e1 e2); try discriminate;
    destruct (Pos.compare_spec m1 m2); try discriminate;
    intros _; subst; repeat split; reflexivity.
Qed.

Lemma SFeqb_refl (a : number) : a <> S754_nan -> SFeqb a a = true.
Proof.
  destruct a as [s|s| |s m e]; intros H; try congruence;
    unfold SFeqb, SFcompare.
  - reflexivity.
  - destruct s; reflexivity.
  - rewrite Pos.compare_cont_spec. cbn [Pos.switch_Eq].
    rewrite Z.compare_refl, Pos.compare_refl. destruct s; reflexivity.
Qed.

(** Adding a zero does not change the value. *)
Lemma add_zero_r (a z : number) :
  isFinite a = true -> isZero z = true -> (a + z == a)%js = true.
Proof.
  destruct a as [s|s| |s m e], z as [t|t| |t n f]; try discriminate;
    intros _ _.
  - destruct s, t; reflexivity.
  - unfold add. cbn [SFadd]. apply SFeqb_refl. discriminate.
Qed.

Lemma add_zero_l (z a : number) :
  isFinite a = true -> isZero z = true -> (z + a == a)%js = true.
Proof.
  destruct a as [s|s| |s m e], z as [t|t| |t n f]; try discriminate;
    intros _ _.
  - destruct s, t; reflexivity.
  - unfold add. cbn [SFadd]. apply SFeqb_refl. discriminate.
Qed.

(** The two end points of [lerp]. *)
Lemma lerp_at_0 (a b : number) :
  valid a = true -> isFinite a = true -> isFinite b = true ->
  (lerp a b #0 == a)%js = true.
Proof.
  intros Hv Ha Hb. unfold lerp.
  change (#1 - #0)%js with (#1)%js.
  rewrite (mul_one_l a Hv Ha).
  apply add_zero_r; [exact Ha | apply mul_zero_l; exact Hb].
Qed.

Lemma lerp_at_1 (a b : number) :
  valid b = true -> isFinite a = true -> isFinite b = true ->
  (lerp a b #1 == b)%js = true.
Proof.
  intros Hv Ha Hb. unfold lerp.
  change (#1 - #1)%js with (#0)%js.
  rewrite (mul_one_l b Hv Hb).
  apply add_zero_l; [exact Hb | apply mul_zero_l; exact Ha].
Qed.

(** [a - a] is [+0] for a finite non-zero [a]. *)
Lemma sub_self_finite (s : bool) (m : positive) (e : Z) :
  (S754_finite s m e - S754_finite s m e)%js = S754_zero false.
Proof. unfold sub. cbn [SFsub]. rewrite Z.sub_diag. reflexivity. Qed.

Lemma div_eucl_div_mod (a b : Z) : Z.div_eucl a b = (a / b, a mod b).
Proof. unfold Z.div, Z.modulo. destruct (Z.div_eucl a b). reflexivity. Qed.

(** [a / a] is [1] for a finite non-zero [a]. *)
Lemma div_self_finite (s : bool) (m : positive) (e : Z) :
  (S754_finite s m e / S754_finite s m e)%js = (#1)%js.
Proof.
  unfold div. cbn [SFdiv]. unfold SFdiv_core_binary.
  rewrite !Z.sub_diag.
  change (Z.min (fexp prec emax 0) 0) with (-53).
  change (0 - -53) with 53.
  rewrite Z.shiftl_mul_pow2 by lia.
  rewrite div_eucl_div_mod.
  rewrite Z.mul_comm, Z_div_mult, Z_mod_mult by lia.
  rewrite xorb_nilpotent.
  assert (Hloc : new_location (Zpos m) 0 = loc_Exact)
    by (unfold new_location; destruct (Z.even (Zpos m)); reflexivity).
  rewrite Hloc. reflexivity.
Qed.

(** *** Right shifts and rounding keep a non-zero mantissa non-zero *)

Lemma shr_1_m (mrs : shr_record) :
  0 <= shr_m mrs -> shr_m (shr_1 mrs) = shr_m mrs / 2.
Proof.
  destruct mrs as [m r s]. cbn [shr_m]. intros Hm.
  rewrite <- Z.div2_div.
  destruct m as [|[p|p|]|p]; try reflexivity. lia.
Qed.

Lemma iter_shr_1_m (n : positive) (mrs : shr_record) :
  0 <= shr_m mrs ->
  shr_m (iter_pos shr_1 n mrs) = shr_m mrs / 2 ^ Zpos n.
Proof.
  revert mrs. induction n as [n IH|n IH|]; intros mrs Hm; cbn [iter_pos].
  - assert (H1 : 0 <= shr_m (shr_1 mrs))
      by (rewrite shr_1_m by exact Hm; apply Z.div_pos; lia).
    assert (Hp : 0 < 2 ^ Zpos n) by (apply Z.pow_pos_nonneg; lia).
    assert (H2 : 0 <= shr_m (iter_pos shr_1 n (shr_1 mrs)))
      by (rewrite IH by exact H1; apply Z.div_pos; lia).
    rewrite IH by exact H2. rewrite IH by exact H1.
    rewrite shr_1_m by exact Hm.
    rewrite !Z.div_div by lia. rewrite pow2_double_succ. reflexivity.
  - assert (Hp : 0 < 2 ^ Zpos n) by (apply Z.pow_pos_nonneg; lia).
    assert (H2 : 0 <= shr_m (iter_pos shr_1 n mrs))
      by (rewrite IH by exact Hm; apply Z.div_pos; lia).
    rewrite IH by exact H2. rewrite IH by exact Hm.
    rewrite !Z.div_div by lia. rewrite pow2_double. reflexivity.
  - apply shr_1_m. exact Hm.
Qed.

Lemma shr_record_of_loc_m (m : Z) (l : location) :
  shr_m (shr_record_of_loc m l) = m.
Proof. destruct l as [|[]]; reflexivity. Qed.

Lemma shr_fexp_positive (m : positive) (e : Z) (l : location) :
  -1074 <= e ->
  0 < shr_m (fst (shr_fexp prec emax (Zpos m) e l))
  /\ -1074 <= snd (shr_fexp prec emax (Zpos m) e l).
Proof.
  intros He. unfold shr_fexp, shr. rewrite fexp_binary64. cbn [Zdigits2].
  destruct (digits2_pos_bounds m) as [Blo _].
  destruct (Z.max (Zpos (digits2_pos m) + e - 53) (-1074) - e)
    as [|n|n] eqn:En; cbn [fst snd];
    try (rewrite shr_record_of_loc_m; split; lia).
  rewrite iter_shr_1_m by (rewrite shr_record_of_loc_m; lia).
  rewrite shr_record_of_loc_m. split; [|lia].
  assert (Hn : Zpos n = Zpos (digits2_pos m) - 53) by lia.
  apply Z.div_str_pos. split; [apply Z.pow_pos_nonneg; lia|].
  eapply Z.le_trans; [|exact Blo].
  apply Z.pow_le_mono_r; lia.
Qed.

Lemma round_nearest_even_positive (m : Z) (l : location) :
  0 < m -> 0 < round_nearest_even m l.
Proof.
  intros Hm. unfold round_nearest_even.
  destruct l as [|[]]; try destruct (Z.even m); lia.
Qed.

(** Rounding a non-zero mantissa at an exponent of the format gives a
    non-zero number or an infinity, never a zero or a NaN. *)
Lemma binary_round_aux_nonzero (s : bool) (m : positive) (e : Z)
  (l : location) :
  -1074 <= e ->
  isNonzero (binary_round_aux prec emax s (Zpos m) e l) = true.
Proof.
  intros He. unfold binary_round_aux.
  destruct (shr_fexp_positive m e l He) as [H1 H2].
  destruct (shr_fexp prec emax (Zpos m) e l) as [mrs' e'].
  cbn [fst snd] in H1, H2.
  pose proof (round_nearest_even_positive (shr_m mrs')
                (loc_of_shr_record mrs') H1) as H3.
  destruct (round_nearest_even (shr_m mrs') (loc_of_shr_record mrs'))
    as [|m1|m1]; try lia.
  destruct (shr_fexp_positive m1 e' loc_Exact H2) as [H4 _].
  destruct (shr_fexp prec emax (Zpos m1) e' loc_Exact) as [mrs'' e''].
  cbn [fst] in H4.
  destruct (shr_m mrs'') as [|m2|m2]; try lia.
  destruct (e'' <=? emax - prec); reflexivity.
Qed.

Lemma pos_iter_xO (m d : positive) :
  Zpos (Pos.iter xO m d) = Zpos m * 2 ^ Zpos d.
Proof.
  induction d as [|d IH] using Pos.peano_ind.
  - cbn [Pos.iter]. rewrite (Pos2Z.inj_xO m). change (2 ^ 1) with 2. ring.
  - rewrite Pos.iter_succ, (Pos2Z.inj_xO (Pos.iter xO m d)), IH.
    rewrite Pos2Z.inj_succ, Z.pow_succ_r by lia. ring.
Qed.

Lemma shl_align_value (m : positive) (e e' : Z) :
  e' <= e -> Zpos (fst (shl_align m e e')) = Zpos m * 2 ^ (e - e').
Proof.
  intros H. unfold shl_align.
  destruct (e' - e) as [|d|d] eqn:E; cbn [fst]; try lia.
  - replace (e - e') with 0 by lia. change (2 ^ 0) with 1. ring.
  - rewrite pos_iter_xO. f_equal. f_equal. lia.
Qed.

Lemma shl_align_exponent (m : positive) (e e' : Z) :
  -1074 <= e -> -1074 <= e' -> -1074 <= snd (shl_align m e e').
Proof.
  intros H H'. unfold shl_align. destruct (e' - e); cbn [snd]; lia.
Qed.

Lemma binary_normalize_nonzero (M e : Z) (sz : bool) :
  M <> 0 -> -1074 <= e ->
  isNonzero (binary_normalize prec emax M e sz) = true.
Proof.
  intros HM He. unfold binary_normalize, binary_round.
  destruct M as [|m|m]; try congruence.
  - pose proof (shl_align_exponent m e
                  (fexp prec emax (Zpos (digits2_pos m) + e)) He) as H.
    destruct (shl_align m e (fexp prec emax (Zpos (digits2_pos m) + e)))
      as [mz ez].
    apply binary_round_aux_nonzero. apply H.
    rewrite fexp_binary64. lia.
  - pose proof (shl_align_exponent m e
                  (fexp prec emax (Zpos (digits2_pos m) + e)) He) as H.
    destruct (shl_align m e (fexp prec emax (Zpos (digits2_pos m) + e)))
      as [mz ez].
    apply binary_round_aux_nonzero. apply H.
    rewrite fexp_binary64. lia.
Qed.

(** What [bounded] says about a mantissa and its exponent. *)
Lemma bounded_inv (m : positive) (e : Z) :
  bounded prec emax m e = true ->
  -1074 <= e <= 971
  /\ Zpos m < 2 ^ 53
  /\ (-1074 < e -> 2 ^ 52 <= Zpos m).
Proof.
  unfold bounded, canonical_mantissa. rewrite fexp_binary64.
  intros H. apply andb_true_iff in H. destruct H as [Hc He].
  apply Z.eqb_eq in Hc. apply Z.leb_le in He.
  change (emax - prec) with 971 in He.
  destruct (digits2_pos_bounds m) as [Blo Bhi].
  split; [lia|]. split.
  - eapply Z.lt_le_trans; [exact Bhi|]. apply Z.pow_le_mono_r; lia.
  - intros Hgt. eapply Z.le_trans; [|exact Blo].
    apply Z.pow_le_mono_r; lia.
Qed.

(** Two different binary64 numbers have different aligned mantissas. *)
Lemma aligned_mantissas_differ (m1 m2 : positive) (e1 e2 : Z) :
  bounded prec emax m1 e1 = true -> bounded prec emax m2 e2 = true ->
  (m1 <> m2 \/ e1 <> e2) ->
  Zpos (fst (shl_align m1 e1 (Z.min e1 e2)))
  <> Zpos (fst (shl_align m2 e2 (Z.min e1 e2))).
Proof.
  intros B1 B2 Hne.
  rewrite !shl_align_value by lia.
  destruct (bounded_inv m1 e1 B1) as (R1 & U1 & L1).
  destruct (bounded_inv m2 e2 B2) as (R2 & U2 & L2).
  destruct (Z.lt_trichotomy e1 e2) as [Hlt|[Heq|Hgt]].
  - rewrite Z.min_l by lia. rewrite Z.sub_diag. change (2 ^ 0) with 1.
    assert (2 ^ 1 <= 2 ^ (e2 - e1)) by (apply Z.pow_le_mono_r; lia).
    change (2 ^ 1) with 2 in *. specialize (L2 ltac:(lia)).
    change (2 ^ 53) with (2 ^ 52 * 2) in *. nia.
  - subst e2. rewrite Z.min_id, Z.sub_diag. change (2 ^ 0) with 1.
    destruct Hne as [Hne|Hne]; [|congruence].
    intros H. apply Hne. lia.
  - rewrite Z.min_r by lia. rewrite Z.sub_diag. change (2 ^ 0) with 1.
    assert (2 ^ 1 <= 2 ^ (e1 - e2)) by (apply Z.pow_le_mono_r; lia).
    change (2 ^ 1) with 2 in *. specialize (L1 ltac:(lia)).
    change (2 ^ 53) with (2 ^ 52 * 2) in *. nia.
Qed.

(** The difference of two unequal numbers is never a zero: [e - s] is a
    non-zero number, an infinity or NaN. *)
Lemma sub_not_zero (a b : number) :
  valid a = true -> valid b = true -> (a == b)%js = false ->
  isZero (a - b)%js = false.
Proof.
  destruct a as [sa|sa| |sa ma ea], b as [sb|sb| |sb mb eb];
    intros Va Vb Hne; try reflexivity; try discriminate.
  - destruct sa, sb; reflexivity.
  - unfold sub. cbn [SFsub].
    assert (HM :
      cond_Zopp sa (Zpos (fst (shl_align ma ea (Z.min ea eb))))
      - cond_Zopp sb (Zpos (fst (shl_align mb eb (Z.min ea eb)))) <> 0).
    { destruct sa, sb; cbn [cond_Zopp]; try lia.
      - assert (ma <> mb \/ ea <> eb).
        { destruct (Pos.eq_dec ma mb) as [->|]; [|left; assumption].
          destruct (Z.eq_dec ea eb) as [->|]; [|right; assumption].
          rewrite SFeqb_refl in Hne by discriminate. discriminate. }
        pose proof (aligned_mantissas_differ ma mb ea eb Va Vb H). lia.
      - assert (ma <> mb \/ ea <> eb).
        { destruct (Pos.eq_dec ma mb) as [->|]; [|left; assumption].
          destruct (Z.eq_dec ea eb) as [->|]; [|right; assumption].
          rewrite SFeqb_refl in Hne by discriminate. discriminate. }
        pose proof (aligned_mantissas_differ ma mb ea eb Va Vb H). lia. }
    destruct (bounded_inv ma ea Va) as (Ra & _).
    destruct (bounded_inv mb eb Vb) as (Rb & _).
    pose proof (binary_normalize_nonzero _ (Z.min ea eb) false HM
                  ltac:(lia)) as Hnz.
    destruct (binary_normalize prec emax _ (Z.min ea eb) false);
      try reflexivity; discriminate.
Qed.

Lemma SFeqb_sym (a b : number) : SFeqb a b = SFeqb b a.
Proof.
  unfold SFeqb, SFcompare.
  destruct a as [sa|sa| |sa ma ea], b as [sb|sb| |sb mb eb];
    try destruct sa; try destruct sb; try reflexivity;
    rewrite !Pos.compare_cont_spec; cbn [Pos.switch_Eq];
    destruct (Z.compare_spec ea eb), (Z.compare_spec eb ea);
    try lia; try reflexivity;
    destruct (Pos.compare_spec ma mb), (Pos.compare_spec mb ma);
    try lia; reflexivity.
Qed.

(** For finite operands the difference of two unequal numbers is a
    non-zero number or, on overflow, an infinity. *)
Lemma sub_finite_nonzero (a b : number) :
  valid a = true -> valid b = true ->
  isFinite a = true -> isFinite b = true -> (a == b)%js = false ->
  isNonzero (a - b)%js = true.
Proof.
  intros Va Vb Fa Fb Hne.
  pose proof (sub_not_zero a b Va Vb Hne) as Hz.
  destruct a as [sa|sa| |sa ma ea], b as [sb|sb| |sb mb eb];
    try discriminate; try reflexivity.
  revert Hz. unfold sub. cbn [SFsub]. unfold binary_normalize.
  destruct (cond_Zopp sa (Zpos (fst (shl_align ma ea (Z.min ea eb))))
            - cond_Zopp sb (Zpos (fst (shl_align mb eb (Z.min ea eb)))))
    as [|M|M] eqn:EM; try discriminate; intros _.
  - destruct (bounded_inv ma ea Va) as (Ra & _).
    destruct (bounded_inv mb eb Vb) as (Rb & _).
    apply (binary_normalize_nonzero (Zpos M) (Z.min ea eb) false);
      [discriminate | lia].
  - destruct (bounded_inv ma ea Va) as (Ra & _).
    destruct (bounded_inv mb eb Vb) as (Rb & _).
    apply (binary_normalize_nonzero (Zneg M) (Z.min ea eb) false);
      [discriminate | lia].
Qed.

Lemma sub_self_zero (a : number) :
  isFinite a = true -> isZero (a - a)%js = true.
Proof.
  destruct a as [s|s| |s m e]; try discriminate; intros _.
  - destruct s; reflexivity.
  - rewrite sub_self_finite. reflexivity.
Qed.

(** Equal bounds make the denominator a zero, or NaN for two equal
    infinities. *)
Lemma sub_of_equal (a b : number) :
  (a == b)%js = true -> isZero (b - a)%js = true \/ (b - a)%js = NaN.
Proof.
  destruct a as [sa|sa| |sa ma ea], b as [sb|sb| |sb mb eb];
    try discriminate; intros H;
    try (destruct sa; discriminate H); try (destruct sb; discriminate H).
  - left. destruct sa, sb; reflexivity.
  - right. destruct sa, sb; try discriminate; reflexivity.
  - destruct (SFcompare_finite_Eq _ _ _ _ _ _ H) as (-> & -> & ->).
    left. rewrite sub_self_finite. reflexivity.
Qed.

Lemma div_by_zero_not_finite (n d : number) :
  isZero d = true -> isFinite (n / d)%js = false.
Proof. destruct n, d; try discriminate; reflexivity. Qed.

Lemma div_by_NaN (n : number) : (n / NaN)%js = NaN.
Proof. destruct n; reflexivity. Qed.

Lemma div_zero_by_nonzero (n d : number) :
  isZero n = true -> isNonzero d = true -> (n / d == #0)%js = true.
Proof. destruct n, d; try discriminate; reflexivity. Qed.

(** *** Halving *)

Lemma canonical_mantissa_spec (m : positive) (e : Z) :
  canonical_mantissa prec emax m e = true
  <-> Z.max (Zpos (digits2_pos m) + e - 53) (-1074) = e.
Proof.
  unfold canonical_mantissa. rewrite fexp_binary64. apply Z.eqb_eq.
Qed.

Lemma bounded_digits (m : positive) (e : Z) :
  bounded prec emax m e = true -> -1074 < e ->
  Zpos (digits2_pos m) = 53.
Proof.
  unfold bounded. intros H He. apply andb_true_iff in H.
  destruct H as [Hc _]. apply canonical_mantissa_spec in Hc. lia.
Qed.

Lemma bounded_pred (m : positive) (e : Z) :
  bounded prec emax m e = true -> -1074 < e ->
  bounded prec emax m (e - 1) = true.
Proof.
  intros H He. pose proof (bounded_digits m e H He) as Hd.
  unfold bounded in *. apply andb_true_iff in H. destruct H as [Hc Hle].
  apply andb_true_iff. split.
  - apply canonical_mantissa_spec. lia.
  - apply Z.leb_le in Hle. apply Z.leb_le. lia.
Qed.

(** [0.5 * a] only lowers the exponent when [a] is at least 2^-1021 in
    magnitude. *)
Lemma mul_half_finite (s : bool) (m : positive) (e : Z) :
  bounded prec emax m e = true -> -1074 < e ->
  (half * S754_finite s m e)%js = S754_finite s m (e - 1).
Proof.
  intros Hb He. unfold mul, half. cbn [SFmul xorb].
  replace (Zpos (4503599627370496 * m)) with (Zpos m * 2 ^ 52)
    by (rewrite Pos2Z.inj_mul; change (2 ^ 52) with 4503599627370496; ring).
  replace (-53 + e) with (e - 1 - 52) by lia.
  apply binary_round_aux_exact; [lia | apply bounded_pred; assumption].
Qed.

Lemma new_location_0 (n : Z) : new_location n 0 = loc_Exact.
Proof. unfold new_location. destruct (Z.even n); reflexivity. Qed.

(** [a / 2] for the same numbers. *)
Lemma div_2_normal (s : bool) (m : positive) (e : Z) :
  bounded prec emax m e = true -> -1074 < e ->
  (S754_finite s m e / #2)%js = S754_finite s m (e - 1).
Proof.
  intros Hb He. pose proof (bounded_digits m e Hb He) as Hd.
  change (#2)%js with (S754_finite false 4503599627370496 (-51)).
  unfold div. cbn [SFdiv]. unfold SFdiv_core_binary.
  cbn [Zdigits2]. rewrite Hd.
  change (Zpos (digits2_pos 4503599627370496)) with 53.
  rewrite fexp_binary64, xorb_false_r.
  change IntDef.Z.min with Z.min.
  destruct (Z_le_gt_dec (-1074) (e - 2)) as [Hbig|Hsmall].
  - replace (Z.min (Z.max (53 + e - (53 + -51) - 53) (-1074)) (e - -51))
      with (e - 2) by lia.
    replace (e - -51 - (e - 2)) with 53 by lia.
    rewrite Z.shiftl_mul_pow2 by lia.
    rewrite div_eucl_div_mod.
    change (2 ^ 53) with (2 * 4503599627370496).
    rewrite Z.mul_assoc, Z_div_mult, Z_mod_mult by lia.
    rewrite new_location_0.
    replace (Zpos m * 2) with (Zpos m * 2 ^ 1) by (change (2 ^ 1) with 2; ring).
    replace (e - 2) with (e - 1 - 1) by lia.
    apply binary_round_aux_exact; [lia | apply bounded_pred; assumption].
  - assert (e = -1073) by lia. subst e.
    change (Z.min (Z.max (53 + -1073 - (53 + -51) - 53) (-1074))
              (-1073 - -51)) with (-1074).
    change (-1073 - -51 - -1074) with 52.
    rewrite Z.shiftl_mul_pow2 by lia.
    rewrite div_eucl_div_mod.
    change (2 ^ 52) with 4503599627370496.
    rewrite Z_div_mult, Z_mod_mult by lia.
    rewrite new_location_0.
    replace (Zpos m) with (Zpos m * 2 ^ 0) at 1
      by (change (2 ^ 0) with 1; ring).
    change (-1074) with (-1073 - 1 - 0).
    apply binary_round_aux_exact; [lia | apply bounded_pred; assumption].
Qed.

(** [a / 2] for an even mantissa at the lowest exponent. *)
Lemma div_2_subnormal (s : bool) (m q : positive) :
  canonical_mantissa prec emax m (-1074) = true ->
  Zpos m = 2 * Zpos q ->
  (S754_finite s m (-1074) / #2)%js = S754_finite s q (-1074).
Proof.
  intros Hc Hm. apply canonical_mantissa_spec in Hc.
  assert (Hq : Zpos (digits2_pos m) = Zpos (digits2_pos q) + 1).
  { pose proof (digits2_pos_shift q 1 ltac:(lia)) as H.
    replace (Zpos q * 2 ^ 1) with (Zpos m) in H
      by (change (2 ^ 1) with 2; lia).
    exact H. }
  change (#2)%js with (S754_finite false 4503599627370496 (-51)).
  unfold div. cbn [SFdiv]. unfold SFdiv_core_binary.
  cbn [Zdigits2].
  change (Zpos (digits2_pos 4503599627370496)) with 53.
  rewrite fexp_binary64, xorb_false_r.
  change IntDef.Z.min with Z.min.
  replace (Z.min (Z.max (Zpos (digits2_pos m) + -1074 - (53 + -51) - 53)
                    (-1074)) (-1074 - -51)) with (-1074) by lia.
  change (-1074 - -51 - -1074) with 51.
  rewrite Z.shiftl_mul_pow2 by lia.
  rewrite div_eucl_div_mod, Hm.
  replace (2 * Zpos q * 2 ^ 51) with (Zpos q * 4503599627370496)
    by (change (2 ^ 51) with 2251799813685248; ring).
  rewrite Z_div_mult, Z_mod_mult by lia.
  rewrite new_location_0.
  replace (Zpos q) with (Zpos q * 2 ^ 0) at 1 by (change (2 ^ 0) with 1; ring).
  change (-1074) with (-1074 - 0) at 1.
  rewrite binary_round_aux_canonical;
    [reflexivity | lia | apply canonical_mantissa_spec; lia].
Qed.

Lemma shl_align_exponent_eq (m : positive) (e e' : Z) :
  e' <= e -> snd (shl_align m e e') = e'.
Proof.
  intros H. unfold shl_align. destruct (e' - e) eqn:E; cbn [snd]; lia.
Qed.

Lemma shl_align_id (m : positive) (e e' : Z) :
  e <= e' -> shl_align m e e' = (m, e).
Proof.
  intros H. unfold shl_align. destruct (e' - e) eqn:E; try reflexivity. lia.
Qed.

(** A mantissa of at most 53 bits is only shifted left: the result is
    exact. *)
Lemma binary_round_aligned (s : bool) (m : positive) (e : Z) :
  fexp prec emax (Zpos (digits2_pos m) + e) <= e ->
  exists mz : positive,
    Zpos mz
    = Zpos m * 2 ^ (e - fexp prec emax (Zpos (digits2_pos m) + e))
    /\ canonical_mantissa prec emax mz
         (fexp prec emax (Zpos (digits2_pos m) + e)) = true
    /\ binary_round prec emax s m e
       = if fexp prec emax (Zpos (digits2_pos m) + e) <=? 971
         then S754_finite s mz (fexp prec emax (Zpos (digits2_pos m) + e))
         else S754_infinity s.
Proof.
  set (F := fexp prec emax (Zpos (digits2_pos m) + e)). intros HF.
  pose proof (shl_align_value m e F HF) as Hv.
  pose proof (shl_align_exponent_eq m e F HF) as Hx.
  unfold binary_round. fold F.
  destruct (shl_align m e F) as [mz ez]. cbn [fst snd] in Hv, Hx. subst ez.
  exists mz. split; [exact Hv|].
  assert (Hc : canonical_mantissa prec emax mz F = true).
  { apply canonical_mantissa_spec.
    pose proof (digits2_pos_shift m (e - F) ltac:(lia)) as Hd.
    rewrite <- Hv in Hd. cbn [Zdigits2] in Hd. rewrite Hd.
    unfold F. rewrite fexp_binary64. lia. }
  split; [exact Hc|].
  replace (Zpos mz) with (Zpos mz * 2 ^ 0) by (change (2 ^ 0) with 1; ring).
  replace F with (F - 0) at 1 by lia.
  apply binary_round_aux_canonical; [lia | exact Hc].
Qed.

Lemma round_nearest_even_range (m : Z) (l : location) :
  m <= round_nearest_even m l <= m + 1.
Proof.
  unfold round_nearest_even.
  destruct l as [|[]]; try destruct (Z.even m); lia.
Qed.

(** A mantissa of more than 53 bits is shifted right and rounded; the
    mantissa that comes out does not depend on the exponent, which only
    moves along. *)
Lemma binary_round_aux_large (s : bool) (m : positive) :
  53 < Zpos (digits2_pos m) ->
  exists (m2 : positive) (j : Z),
    0 <= j <= 1
    /\ Zpos (digits2_pos m2) = 53
    /\ forall e : Z, -1074 <= e ->
         binary_round_aux prec emax s (Zpos m) e loc_Exact
         = if e + (Zpos (digits2_pos m) - 53) + j <=? 971
           then S754_finite s m2 (e + (Zpos (digits2_pos m) - 53) + j)
           else S754_infinity s.
Proof.
  intros Hd.
  destruct (Zpos (digits2_pos m) - 53) as [|n|n] eqn:En; try lia.
  set (mrs := iter_pos shr_1 n (Build_shr_record (Zpos m) false false)).
  assert (Hm0 : shr_m mrs = Zpos m / 2 ^ Zpos n)
    by (unfold mrs; rewrite iter_shr_1_m; cbn [shr_m]; [reflexivity|lia]).
  destruct (digits2_pos_bounds m) as [Blo Bhi].
  assert (Hp : 0 < 2 ^ Zpos n) by (apply Z.pow_pos_nonneg; lia).
  assert (Hlo : 2 ^ 52 <= shr_m mrs).
  { rewrite Hm0. apply Z.div_le_lower_bound; [exact Hp|].
    rewrite <- Z.pow_add_r by lia.
    replace (Zpos n + 52) with (Zpos (digits2_pos m) - 1) by lia.
    exact Blo. }
  assert (Hhi : shr_m mrs < 2 ^ 53).
  { rewrite Hm0. apply Z.div_lt_upper_bound; [exact Hp|].
    rewrite <- Z.pow_add_r by lia.
    replace (Zpos n + 53) with (Zpos (digits2_pos m)) by lia.
    exact Bhi. }
  pose proof (round_nearest_even_range (shr_m mrs) (loc_of_shr_record mrs))
    as Hr.
  destruct (round_nearest_even (shr_m mrs) (loc_of_shr_record mrs))
    as [|m1|m1] eqn:Em1;
    try (change (2 ^ 52) with 4503599627370496 in Hlo; lia).
  assert (Hstep : forall e : Z, -1074 <= e ->
            binary_round_aux prec emax s (Zpos m) e loc_Exact
            = let '(mrs'', e'') :=
                shr_fexp prec emax (Zpos m1) (e + Zpos n) loc_Exact in
              match shr_m mrs'' with
              | 0 => S754_zero s
              | Zpos m0 =>
                  if e'' <=? emax - prec then S754_finite s m0 e''
                  else S754_infinity s
              | Zneg _ => S754_nan
              end).
  { intros e He. unfold binary_round_aux.
    unfold shr_fexp at 1. rewrite fexp_binary64. cbn [Zdigits2].
    replace (Z.max (Zpos (digits2_pos m) + e - 53) (-1074) - e)
      with (Zpos n) by lia.
    cbn [shr shr_record_of_loc]. fold mrs. rewrite Em1. reflexivity. }
  destruct (Z_lt_le_dec (Zpos m1) (2 ^ 53)) as [Hsmall|Hbig].
  - exists m1, 0.
    assert (Hd1 : Zpos (digits2_pos m1) = 53)
      by (apply digits2_pos_unique; change (53 - 1) with 52; lia).
    split; [lia|]. split; [exact Hd1|].
    intros e He. rewrite (Hstep e He).
    unfold shr_fexp. rewrite fexp_binary64. cbn [Zdigits2]. rewrite Hd1.
    replace (Z.max (53 + (e + Zpos n) - 53) (-1074) - (e + Zpos n))
      with 0 by lia.
    cbn [shr shr_record_of_loc shr_m].
    rewrite Z.add_0_r. reflexivity.
  - exists 4503599627370496%positive, 1.
    assert (Hm1 : m1 = 9007199254740992%positive).
    { apply Pos2Z.inj. change (2 ^ 53) with 9007199254740992 in *.
      change (2 ^ 52) with 4503599627370496 in *. lia. }
    subst m1.
    split; [lia|]. split; [reflexivity|].
    intros e He. rewrite (Hstep e He).
    unfold shr_fexp. rewrite fexp_binary64.
    change (Zdigits2 9007199254740992) with 54.
    replace (Z.max (54 + (e + Zpos n) - 53) (-1074) - (e + Zpos n))
      with 1 by lia.
    cbn [shr shr_record_of_loc iter_pos shr_1 shr_m orb]. reflexivity.
Qed.

(** Lowering the exponent of the input by one halves the rounded result,
    as long as the exponent stays above the lowest one. *)
Lemma binary_round_halve (s : bool) (m : positive) (e : Z) :
  -1074 < e ->
  isFinite (binary_round prec emax s m e) = true ->
  binary_round prec emax s m (e - 1)
  = (binary_round prec emax s m e / #2)%js.
Proof.
  intros He Hfin.
  destruct (Z_le_gt_dec (Zpos (digits2_pos m)) 53) as [Hd|Hd].
  - destruct (binary_round_aligned s m e) as (mz & Vz & Cz & Rz);
      [rewrite fexp_binary64; lia|].
    destruct (binary_round_aligned s m (e - 1)) as (mz' & Vz' & Cz' & Rz');
      [rewrite fexp_binary64; lia|].
    rewrite Rz in Hfin |- *. rewrite Rz'. clear Rz Rz'.
    rewrite !fexp_binary64 in *.
    destruct (Z_le_gt_dec (Zpos (digits2_pos m) + e - 53) (-1074))
      as [Hsub|Hnorm].
    + replace (Z.max (Zpos (digits2_pos m) + (e - 1) - 53) (-1074))
        with (-1074) in * by lia.
      replace (Z.max (Zpos (digits2_pos m) + e - 53) (-1074))
        with (-1074) in * by lia.
      change (-1074 <=? 971) with true. cbv iota.
      symmetry. apply div_2_subnormal; [exact Cz|].
      rewrite Vz, Vz'.
      replace (e - -1074) with (Z.succ (e - 1 - -1074)) by lia.
      rewrite Z.pow_succ_r by lia. ring.
    + replace (Z.max (Zpos (digits2_pos m) + (e - 1) - 53) (-1074))
        with (Zpos (digits2_pos m) + e - 53 - 1) in * by lia.
      replace (Z.max (Zpos (digits2_pos m) + e - 53) (-1074))
        with (Zpos (digits2_pos m) + e - 53) in * by lia.
      set (F := Zpos (digits2_pos m) + e - 53) in *.
      assert (mz' = mz).
      { apply Pos2Z.inj. rewrite Vz, Vz'. f_equal. f_equal. lia. }
      subst mz'.
      destruct (F <=? 971) eqn:EF; [|discriminate].
      apply Z.leb_le in EF.
      replace (F - 1 <=? 971) with true by (symmetry; apply Z.leb_le; lia).
      symmetry. apply div_2_normal; [|lia].
      unfold bounded. rewrite Cz. apply Z.leb_le.
      change (emax - prec) with 971. exact EF.
  - destruct (binary_round_aux_large s m ltac:(lia))
      as (m2 & j & Hj & Hd2 & Hall).
    unfold binary_round in *.
    rewrite shl_align_id in Hfin |- * by (rewrite fexp_binary64; lia).
    rewrite shl_align_id by (rewrite fexp_binary64; lia).
    rewrite (Hall e ltac:(lia)) in Hfin |- *.
    rewrite (Hall (e - 1) ltac:(lia)).
    set (e2 := e + (Zpos (digits2_pos m) - 53) + j) in *.
    replace (e - 1 + (Zpos (digits2_pos m) - 53) + j) with (e2 - 1) by lia.
    destruct (e2 <=? 971) eqn:E2; [|discriminate].
    apply Z.leb_le in E2.
    replace (e2 - 1 <=? 971) with true by (symmetry; apply Z.leb_le; lia).
    symmetry. apply div_2_normal; [|lia].
    unfold bounded. apply andb_true_iff. split.
    + apply canonical_mantissa_spec. lia.
    + apply Z.leb_le. change (emax - prec) with 971. exact E2.
Qed.

Lemma shl_align_shift (m : positive) (e e' : Z) :
  fst (shl_align m (e - 1) (e' - 1)) = fst (shl_align m e e').
Proof.
  unfold shl_align. replace (e' - 1 - (e - 1)) with (e' - e) by lia.
  destruct (e' - e); reflexivity.
Qed.

(** The sum of the halves is half the sum, when the sum is finite. *)
Lemma add_halves (sa sb : bool) (ma mb : positive) (ea eb : Z) :
  -1074 < ea -> -1074 < eb ->
  isFinite (S754_finite sa ma ea + S754_finite sb mb eb)%js = true ->
  (S754_finite sa ma (ea - 1) + S754_finite sb mb (eb - 1))%js
  = ((S754_finite sa ma ea + S754_finite sb mb eb) / #2)%js.
Proof.
  intros Ha Hb. unfold add. cbn [SFadd].
  replace (Z.min (ea - 1) (eb - 1)) with (Z.min ea eb - 1) by lia.
  rewrite !shl_align_shift.
  destruct (cond_Zopp sa (Zpos (fst (shl_align ma ea (Z.min ea eb))))
            + cond_Zopp sb (Zpos (fst (shl_align mb eb (Z.min ea eb)))))
    as [|M|M]; unfold binary_normalize; intros Hfin.
  - reflexivity.
  - apply binary_round_halve; [lia | exact Hfin].
  - apply binary_round_halve; [lia | exact Hfin].
Qed.

Lemma add_finite_not_NaN (sa sb : bool) (ma mb : positive) (ea eb : Z) :
  (S754_finite sa ma ea + S754_finite sb mb eb)%js <> S754_nan
  \/ -1074 > Z.min ea eb.
Proof.
  destruct (Z_le_gt_dec (-1074) (Z.min ea eb)) as [H|H]; [left|right; lia].
  unfold add. cbn [SFadd].
  destruct (cond_Zopp sa (Zpos (fst (shl_align ma ea (Z.min ea eb))))
            + cond_Zopp sb (Zpos (fst (shl_align mb eb (Z.min ea eb)))))
    as [|M|M] eqn:EM.
  - discriminate.
  - pose proof (binary_normalize_nonzero (Zpos M) (Z.min ea eb) false
                  ltac:(discriminate) H) as Hn.
    intros E. rewrite E in Hn. discriminate.
  - pose proof (binary_normalize_nonzero (Zneg M) (Z.min ea eb) false
                  ltac:(discriminate) H) as Hn.
    intros E. rewrite E in Hn. discriminate.
Qed.

(** The midpoint: [lerp] halves both ends and adds. *)
Lemma lerp_midpoint (a b : number) :
  valid a = true -> valid b = true ->
  halvesExactly a = true -> halvesExactly b = true ->
  isFinite (a + b)%js = true ->
  (lerp a b half == (a + b) / #2)%js = true.
Proof.
  intros Va Vb Ha Hb Hfin. unfold lerp.
  change (#1 - half)%js with half.
  destruct a as [sa|sa| |sa ma ea], b as [sb|sb| |sb mb eb];
    try discriminate.
  - destruct sa, sb; reflexivity.
  - apply Z.ltb_lt in Hb.
    rewrite (mul_half_finite sb mb eb Vb Hb).
    replace (S754_zero sa + S754_finite sb mb eb)%js
      with (S754_finite sb mb eb) by reflexivity.
    rewrite (div_2_normal sb mb eb Vb Hb).
    replace (half * S754_zero sa)%js with (S754_zero sa)
      by (destruct sa; reflexivity).
    apply SFeqb_refl. discriminate.
  - apply Z.ltb_lt in Ha.
    rewrite (mul_half_finite sa ma ea Va Ha).
    replace (S754_finite sa ma ea + S754_zero sb)%js
      with (S754_finite sa ma ea) by reflexivity.
    rewrite (div_2_normal sa ma ea Va Ha).
    replace (half * S754_zero sb)%js with (S754_zero sb)
      by (destruct sb; reflexivity).
    apply SFeqb_refl. discriminate.
  - apply Z.ltb_lt in Ha. apply Z.ltb_lt in Hb.
    rewrite (mul_half_finite sa ma ea Va Ha).
    rewrite (mul_half_finite sb mb eb Vb Hb).
    rewrite <- (add_halves sa sb ma mb ea eb Ha Hb Hfin).
    apply SFeqb_refl.
    destruct (add_finite_not_NaN sa sb ma mb (ea - 1) (eb - 1)) as [H|H];
      [exact H | lia].
Qed.

(** ** [lerp] *)

(** C4, as the code has it: for finite [a] and [b], [lerp(a, b, 0) == a]
    and [lerp(a, b, 1) == b]; [lerp(a, b, 0.5) == (a + b) / 2] holds
    whenever [a + b] does not overflow and [a] and [b] are each zero or at
    least 2^-1021 in magnitude, so that their halves are exact. *)
Theorem C4_lerp_fixed_points (a b : number) :
  valid a = true -> valid b = true ->
  isFinite a = true -> isFinite b = true ->
  (lerp a b #0 == a)%js = true
  /\ (lerp a b #1 == b)%js = true
  /\ (halvesExactly a = true -> halvesExactly b = true ->
      isFinite (a + b)%js = true ->
      (lerp a b half == (a + b) / #2)%js = true).
Proof.
  intros Va Vb Fa Fb. split; [|split].
  - apply lerp_at_0; assumption.
  - apply lerp_at_1; assumption.
  - intros Ha Hb Hfin. apply lerp_midpoint; assumption.
Qed.

Lemma C4_lerp_fixed_points_witness :
  (lerp (neg #15) PI #0 == neg #15)%js = true
  /\ (lerp (neg #15) PI #1 == PI)%js = true
  /\ (lerp (neg #15) PI half == (neg #15 + PI) / #2)%js = true.
Proof.
  destruct (C4_lerp_fixed_points (neg #15)%js PI
              eq_refl eq_refl eq_refl eq_refl) as (H0 & H1 & Hh).
  exact (conj H0 (conj H1 (Hh eq_refl eq_refl eq_refl))).
Defined.

(** The midpoint identity does not hold for all finite numbers: [lerp]
    halves each end before adding, so [lerp(MAX_VALUE, MAX_VALUE, 0.5)] is
    [MAX_VALUE] while [(MAX_VALUE + MAX_VALUE) / 2] overflows to
    Infinity. *)
Lemma C4_counterexample :
  ~ (forall a b : number,
       valid a = true -> valid b = true ->
       isFinite a = true -> isFinite b = true ->
       (lerp a b #0 == a)%js = true
       /\ (lerp a b #1 == b)%js = true
       /\ (lerp a b half == (a + b) / #2)%js = true).
Proof.
  intros H.
  destruct (H MAX_VALUE MAX_VALUE eq_refl eq_refl eq_refl eq_refl)
    as (_ & _ & H1).
  vm_compute in H1. discriminate H1.
Qed.

(** Halving first also differs from adding first at the other end of the
    range: half of [MIN_VALUE] rounds to 0. *)
Lemma lerp_midpoint_underflow :
  lerp MIN_VALUE MIN_VALUE half = (#0)%js
  /\ ((MIN_VALUE + MIN_VALUE) / #2)%js = MIN_VALUE.
Proof. split; reflexivity. Qed.

(** ** [scalePercent] *)

(** C5, as the code has it: for finite bounds [s != e], [scalePercent] is 0
    when the progress is [s]; when the progress is [e] it is 1 provided the
    difference [e - s] is finite, and NaN when that difference overflows. *)
Theorem C5_scalePercent_endpoints (s e : number) :
  valid s = true -> valid e = true ->
  isFinite s = true -> isFinite e = true ->
  (s != e)%js = true ->
  (scalePercent s e s == #0)%js = true
  /\ (isFinite (e - s)%js = true -> scalePercent s e e = (#1)%js)
  /\ (isFinite (e - s)%js = false -> scalePercent s e e = NaN).
Proof.
  intros Vs Ve Fs Fe Hne. unfold notEqual in Hne.
  apply negb_true_iff in Hne. fold (s == e)%js in Hne.
  assert (Hne' : (e == s)%js = false)
    by (unfold equal in *; rewrite SFeqb_sym; exact Hne).
  pose proof (sub_finite_nonzero e s Ve Vs Fe Fs Hne') as HD.
  unfold scalePercent. split; [|split].
  - apply div_zero_by_nonzero; [apply sub_self_zero; exact Fs | exact HD].
  - intros HF. destruct (e - s)%js as [t|t| |t m x]; try discriminate.
    apply div_self_finite.
  - intros HF. destruct (e - s)%js as [t|t| |t m x]; try discriminate.
    reflexivity.
Qed.

Lemma C5_scalePercent_endpoints_witness :
  (scalePercent #40 #60 #40 == #0)%js = true
  /\ scalePercent #40%js #60%js #60%js = (#1)%js.
Proof.
  destruct (C5_scalePercent_endpoints #40%js #60%js
              eq_refl eq_refl eq_refl eq_refl eq_refl) as (H0 & H1 & _).
  exact (conj H0 (H1 eq_refl)).
Defined.

(** The end value 1 is not reached for finite bounds whose difference
    overflows: with [s = -MAX_VALUE] and [e = MAX_VALUE] the value at
    progress [e] is Infinity / Infinity, which is NaN. *)
Lemma C5_counterexample :
  ~ (forall s e : number,
       valid s = true -> valid e = true ->
       isFinite s = true -> isFinite e = true ->
       (s != e)%js = true ->
       (scalePercent s e s == #0)%js = true
       /\ (scalePercent s e e == #1)%js = true).
Proof.
  intros H.
  destruct (H (neg MAX_VALUE) MAX_VALUE eq_refl eq_refl eq_refl eq_refl
              eq_refl) as [_ H1].
  vm_compute in H1. discriminate H1.
Qed.

(** C6: [scalePercent] divides without a guard.  With equal bounds the
    result is never finite (NaN or an infinity), and for finite equal
    bounds the divisor is a zero.  With unequal bounds the divisor is not
    a zero and the result is the quotient
    [(progress - rangeStart) / (rangeEnd - rangeStart)]. *)
Theorem C6_scalePercent_division (s e p : number) :
  ((s == e)%js = true -> isFinite (scalePercent s e p) = false)
  /\ ((s == e)%js = true -> isFinite s = true -> isZero (e - s)%js = true)
  /\ (valid s = true -> valid e = true -> (s != e)%js = true ->
      isZero (e - s)%js = false
      /\ scalePercent s e p = ((p - s) / (e - s))%js).
Proof.
  split; [|split].
  - intros H. unfold scalePercent.
    destruct (sub_of_equal s e H) as [Hz|Hn].
    + apply div_by_zero_not_finite. exact Hz.
    + rewrite Hn, div_by_NaN. reflexivity.
  - intros H Fs. destruct (sub_of_equal s e H) as [Hz|Hn]; [exact Hz|].
    destruct s as [sa|sa| |sa ma ea], e as [sb|sb| |sb mb eb];
      try discriminate;
      try (destruct sa; discriminate H); try (destruct sb; discriminate H).
    + destruct sa, sb; discriminate Hn.
    + destruct (SFcompare_finite_Eq _ _ _ _ _ _ H) as (-> & -> & ->).
      rewrite sub_self_finite in Hn. discriminate.
  - intros Vs Ve Hne. split; [|reflexivity].
    unfold notEqual in Hne. apply negb_true_iff in Hne.
    apply sub_not_zero; [exact Ve | exact Vs |].
    unfold equal. rewrite SFeqb_sym. exact Hne.
Qed.

Lemma C6_scalePercent_division_witness :
  isFinite (scalePercent #40 #40 #50)%js = false
  /\ isZero (#40 - #40)%js = true
  /\ isZero (#100 - #80)%js = false
  /\ scalePercent #80%js #100%js #90%js
     = ((#90 - #80) / (#100 - #80))%js.
Proof.
  destruct (C6_scalePercent_division #40%js #40%js #50%js)
    as (H1 & H2 & _).
  destruct (C6_scalePercent_division #80%js #100%js #90%js)
    as (_ & _ & H3).
  destruct (H3 eq_refl eq_refl eq_refl) as [H4 H5].
  exact (conj (H1 eq_refl) (conj (H2 eq_refl eq_refl) (conj H4 H5))).
Defined.

(** ** The scheduler runs at most one entry *)

Lemma for_of_at_most_one (scripts : list Animation.t) (i : nat) (st : State) :
  (length (fst (Part000.for_of scripts i st)) <= 1)%nat.
Proof.
  revert i; induction scripts as [|animation rest IH]; intros i; simpl.
  - lia.
  - destruct (isInRange st animation); simpl; [lia | apply IH].
Qed.

Lemma executed_is_for_of (st : State) :
  Part000.executed st = fst (Part000.for_of Part000.animationScripts 0 st).
Proof.
  unfold Part000.executed, Part000.playScrollAnimation_traced.
  destruct (Part000.for_of Part000.animationScripts 0 st); reflexivity.
Qed.

(** The entry the loop stops at is the first one in range, in array
    order. *)
Lemma for_of_first_match (scripts : list Animation.t) (i0 i : nat)
  (st : State) :
  fst (Part000.for_of scripts i0 st) = [i] ->
  exists (k : nat) (animation : Animation.t),
    i = (i0 + k)%nat
    /\ nth_error scripts k = Some animation
    /\ isInRange st animation = true
    /\ forall (j : nat) (earlier : Animation.t),
         (j < k)%nat -> nth_error scripts j = Some earlier ->
         isInRange st earlier = false.
Proof.
  revert i0. induction scripts as [|a rest IH]; intros i0; simpl.
  - discriminate.
  - destruct (isInRange st a) eqn:E; simpl.
    + intros H. injection H as <-.
      exists 0%nat, a. repeat split; [lia | exact E |].
      intros j earlier Hj. lia.
    + intros H. destruct (IH (S i0) H) as (k & b & Hi & Hn & Hb & Hearlier).
      exists (S k), b. repeat split; [lia | exact Hn | exact Hb |].
      intros [|j] earlier Hj Hnth; simpl in Hnth.
      * injection Hnth as <-. exact E.
      * apply (Hearlier j earlier); [lia | exact Hnth].
Qed.

(** C1: whatever the progress, one tick of the scheduler calls the function
    of at most one timeline entry; at progress 40, which lies in the closed
    ranges of both INTRO and ROTATION, it calls INTRO (index 0) only, and
    the tick is exactly INTRO's function.  The earlier range wins at every
    shared bound: the array holds INTRO, ROTATION, CAMERA_MOVE, FINAL_SPIN
    in this order; at 60, in range for ROTATION and CAMERA_MOVE, the tick
    is ROTATION's function only, and at 80, in range for CAMERA_MOVE and
    FINAL_SPIN, it is CAMERA_MOVE's only.  In general the entry a tick
    calls is in range and no entry before it in the array is. *)
Theorem C1_first_match_only :
  (forall st : State, (length (Part000.executed st) <= 1)%nat)
  /\ (forall st : State,
        let st40 := set_scrollPercent st #40%js in
        isInRange st40 INTRO_entry = true
        /\ isInRange st40 ROTATION_entry = true
        /\ nth_error Part000.animationScripts 0 = Some INTRO_entry
        /\ Part000.executed st40 = [0%nat]
        /\ Part000.playScrollAnimation st40
           = Animation.function INTRO_entry st40)
  /\ Part000.animationScripts
     = [INTRO_entry; ROTATION_entry; CAMERA_MOVE_entry;
        Part000.FINAL_SPIN_entry]
  /\ (forall st : State,
        let st60 := set_scrollPercent st #60%js in
        isInRange st60 ROTATION_entry = true
        /\ isInRange st60 CAMERA_MOVE_entry = true
        /\ Part000.executed st60 = [1%nat]
        /\ Part000.playScrollAnimation st60
           = Animation.function ROTATION_entry st60)
  /\ (forall st : State,
        let st80 := set_scrollPercent st #80%js in
        isInRange st80 CAMERA_MOVE_entry = true
        /\ isInRange st80 Part000.FINAL_SPIN_entry = true
        /\ Part000.executed st80 = [2%nat]
        /\ Part000.playScrollAnimation st80
           = Animation.function CAMERA_MOVE_entry st80)
  /\ (forall (st : State) (i : nat),
        Part000.executed st = [i] ->
        exists animation : Animation.t,
          nth_error Part000.animationScripts i = Some animation
          /\ isInRange st animation = true
          /\ forall (j : nat) (earlier : Animation.t),
               (j < i)%nat ->
               nth_error Part000.animationScripts j = Some earlier ->
               isInRange st earlier = false).
Proof.
  split; [|split; [|split; [|split; [|split]]]].
  - intros st. rewrite executed_is_for_of. apply for_of_at_most_one.
  - intros st st40. subst st40. repeat split; reflexivity.
  - reflexivity.
  - intros st st60. subst st60. repeat split; reflexivity.
  - intros st st80. subst st80. repeat split; reflexivity.
  - intros st i H. rewrite executed_is_for_of in H.
    destruct (for_of_first_match _ _ _ _ H) as (k & a & Hi & Hn & Ha & He).
    simpl in Hi. subst k. exists a. repeat split; assumption.
Qed.

Lemma C1_first_match_only_witness :
  exists animation : Animation.t,
    nth_error Part000.animationScripts 1 = Some animation
    /\ isInRange (set_scrollPercent (init sampleEnv) #60%js) animation
       = true
    /\ forall (j : nat) (earlier : Animation.t),
         (j < 1)%nat ->
         nth_error Part000.animationScripts j = Some earlier ->
         isInRange (set_scrollPercent (init sampleEnv) #60%js) earlier
         = false.
Proof.
  destruct C1_first_match_only as (_ & _ & _ & _ & _ & H).
  exact (H (set_scrollPercent (init sampleEnv) #60%js) 1%nat eq_refl).
Defined.

(** The [forEach] of [src/main.js] has no [break]: at 40 it calls INTRO
    and then ROTATION. *)
Lemma MainJs_runs_both_at_40 (st : State) :
  MainJs.executed (set_scrollPercent st #40%js) = [0%nat; 1%nat].
Proof. reflexivity. Qed.

(** ** FINAL_SPIN *)

(** C2: FINAL_SPIN assigns box rotation x and y the interpolation from the
    constant initial rotation (1) to 4 pi at the current progress, whatever
    the rotation was before; so a second call at the same progress changes
    nothing.  The end points are 1 at progress 80 and 4 pi at 100. *)
Theorem C2_final_spin_fixed_origin (st : State) :
  let spin := Animation.function Part000.FINAL_SPIN_entry in
  let t := scalePercent #80%js #100%js (scrollPercent st) in
  Vector3.x (Mesh.rotation (box (spin st)))
  = lerp (Vector3.x BOX_INITIAL_ROTATION) (PI * #4)%js t
  /\ Vector3.y (Mesh.rotation (box (spin st)))
     = lerp (Vector3.y BOX_INITIAL_ROTATION) (PI * #4)%js t
  /\ spin (spin st) = spin st
  /\ lerp (Vector3.x BOX_INITIAL_ROTATION) (PI * #4)%js
       (scalePercent #80%js #100%js #80%js) = #1%js
  /\ lerp (Vector3.x BOX_INITIAL_ROTATION) (PI * #4)%js
       (scalePercent #80%js #100%js #100%js) = (PI * #4)%js.
Proof.
  intros spin t. subst spin t.
  repeat split; try reflexivity.
Qed.

(** In [src/main.js] FINAL_SPIN starts from the current rotation, so two
    calls at progress 90 differ. *)
Lemma MainJs_final_spin_drifts :
  let spin := Animation.function MainJs.FINAL_SPIN_entry in
  let st := set_scrollPercent (init sampleEnv) #90%js in
  Mesh.rotation (box (spin (spin st))) <> Mesh.rotation (box (spin st)).
Proof. vm_compute. discriminate. Qed.

(** ** Idle spin *)

(** Above 100 no entry is in range and the increment accumulates. *)
Lemma idle_spin_accumulates_above_100 :
  let st := set_scrollPercent (init sampleEnv) #150%js in
  let once := Part000.playScrollAnimation st in
  let twice := Part000.playScrollAnimation once in
  Part000.executed st = []
  /\ Vector3.x (Mesh.rotation (box once)) = (#1 + hundredth)%js
  /\ Vector3.x (Mesh.rotation (box twice))
     = (#1 + hundredth + hundredth)%js
  /\ SFltb (Vector3.x (Mesh.rotation (box once)))
           (Vector3.x (Mesh.rotation (box twice))) = true.
Proof. vm_compute. repeat split; reflexivity. Qed.

(** C3: at progress 100 one tick runs FINAL_SPIN (index 3) and then the
    idle increment, so box rotation x and y end at 4 pi + 0.01; the next
    tick at 100 starts again from FINAL_SPIN's value and ends at the same
    4 pi + 0.01.  The rotation therefore does not increase from tick to
    tick at progress 100, whatever the scene was before. *)
Theorem C3_rotation_pinned_at_100 (st : State) :
  let st100 := set_scrollPercent st #100%js in
  let once := Part000.playScrollAnimation st100 in
  let twice := Part000.playScrollAnimation once in
  Part000.executed st100 = [3%nat]
  /\ Part000.executed once = [3%nat]
  /\ Vector3.x (Mesh.rotation (box once)) = (PI * #4 + hundredth)%js
  /\ Vector3.y (Mesh.rotation (box once)) = (PI * #4 + hundredth)%js
  /\ Vector3.x (Mesh.rotation (box twice))
     = Vector3.x (Mesh.rotation (box once))
  /\ Vector3.y (Mesh.rotation (box twice))
     = Vector3.y (Mesh.rotation (box once))
  /\ SFltb (Vector3.x (Mesh.rotation (box once)))
           (Vector3.x (Mesh.rotation (box twice))) = false
  /\ twice = once.
Proof.
  intros st100 once twice. subst st100 once twice.
  repeat split; reflexivity.
Qed.

(** ** INTRO *)

(** C7: INTRO at progress 0 puts the box at z = -15 and the torus at
    z = 10, and at progress 40 puts the box at z = 2 and the torus at
    z = -20, exactly; the scheduler runs INTRO at both values. *)
Theorem C7_intro_endpoints (st : State) :
  let intro := Animation.function INTRO_entry in
  let st0 := set_scrollPercent st #0%js in
  let st40 := set_scrollPercent st #40%js in
  Vector3.z (Mesh.position (box (intro st0))) = (neg #15)%js
  /\ Vector3.z (Mesh.position (torus (intro st0))) = #10%js
  /\ Vector3.z (Mesh.position (box (intro st40))) = #2%js
  /\ Vector3.z (Mesh.position (torus (intro st40))) = (neg #20)%js
  /\ Part000.playScrollAnimation st0 = intro st0
  /\ Part000.playScrollAnimation st40 = intro st40.
Proof.
  intros intro st0 st40. subst intro st0 st40.
  repeat split; reflexivity.
Qed.

(** ** Progress outside the timeline *)

Lemma SFleb_trans (a b c : number) :
  SFleb a b = true -> SFleb b c = true -> SFleb a c = true.
Proof.
  unfold SFleb, SFcompare.
  destruct a as [sa|sa| |sa ma ea], b as [sb|sb| |sb mb eb],
           c as [sc|sc| |sc mc ec];
    try destruct sa; try destruct sb; try destruct sc;
    try reflexivity; try discriminate;
    rewrite ?Pos.compare_cont_spec; simpl Pos.switch_Eq;
    try (destruct (Z.compare_spec ea eb); try discriminate);
    try (destruct (Z.compare_spec eb ec); try discriminate);
    try (destruct (Z.compare_spec ea ec); try reflexivity; try lia);
    subst;
    try (destruct (Pos.compare_spec ma mb); try discriminate);
    try (destruct (Pos.compare_spec mb mc); try discriminate);
    try (destruct (Pos.compare_spec ma mc); try reflexivity; try lia);
    intros; try reflexivity; try discriminate; try lia.
Qed.

(** A range inside [0, 100] only holds progress values of the timeline. *)
Lemma inside_range_inTimeline (lo hi p : number) :
  (#0 <= lo)%js = true -> (hi <= #100)%js = true ->
  ((p >= lo) && (p <= hi))%js = true -> inTimeline p = true.
Proof.
  unfold inTimeline, gte, lte. intros Hlo Hhi H.
  apply andb_true_iff in H. destruct H as [H1 H2].
  apply andb_true_iff. split.
  - exact (SFleb_trans _ _ _ Hlo H1).
  - exact (SFleb_trans _ _ _ H2 Hhi).
Qed.

Lemma entries_inside_timeline (animation : Animation.t) :
  In animation Part000.animationScripts ->
  (#0 <= Animation.start animation)%js = true
  /\ (Animation.end_ animation <= #100)%js = true.
Proof.
  intros H. each_entry H; split; reflexivity.
Qed.

Lemma for_of_none_in_range (scripts : list Animation.t) (i : nat)
  (st : State) :
  (forall animation, In animation scripts -> isInRange st animation = false) ->
  Part000.for_of scripts i st = ([], st).
Proof.
  revert i. induction scripts as [|animation rest IH]; intros i H; simpl.
  - reflexivity.
  - rewrite (H animation (or_introl eq_refl)).
    apply IH. intros a Ha. apply H. right. exact Ha.
Qed.

Lemma outside_timeline_no_entry (st : State) :
  inTimeline (scrollPercent st) = false ->
  Part000.for_of Part000.animationScripts 0 st = ([], st).
Proof.
  intros Hout. apply for_of_none_in_range. intros animation Hin.
  destruct (entries_inside_timeline animation Hin) as [Hlo Hhi].
  destruct (isInRange st animation) eqn:E; [|reflexivity].
  unfold isInRange in E.
  rewrite (inside_range_inTimeline _ _ _ Hlo Hhi E) in Hout.
  discriminate.
Qed.

Lemma SFltb_SFleb (a b : number) : SFltb a b = true -> SFleb a b = true.
Proof.
  unfold SFltb, SFleb. destruct (SFcompare a b) as [[]|]; congruence.
Qed.

Lemma SFltb_not_SFleb (a b : number) :
  SFltb a b = true -> SFleb b a = false.
Proof.
  unfold SFltb, SFleb, SFcompare.
  destruct a as [sa|sa| |sa ma ea], b as [sb|sb| |sb mb eb];
    try destruct sa; try destruct sb;
    try reflexivity; try discriminate;
    rewrite !Pos.compare_cont_spec; cbn [Pos.switch_Eq];
    destruct (Z.compare_spec ea eb), (Z.compare_spec eb ea);
    try lia; try reflexivity; try discriminate;
    destruct (Pos.compare_spec ma mb), (Pos.compare_spec mb ma);
    try lia; try reflexivity; discriminate.
Qed.

(** Strictly above 80 and up to 100 the tick is FINAL_SPIN's (index 3);
    at 80 itself CAMERA_MOVE comes first. *)
Lemma final_spin_selected (st : State) :
  SFltb #80%js (scrollPercent st) = true ->
  (scrollPercent st <= #100)%js = true ->
  Part000.executed st = [3%nat].
Proof.
  intros Hlt Hle.
  pose proof (SFltb_not_SFleb _ _ Hlt) as H80.
  assert (H60 : SFleb (scrollPercent st) #60%js = false).
  { destruct (SFleb (scrollPercent st) #60%js) eqn:E; [|reflexivity].
    rewrite (SFleb_trans _ _ #80%js E eq_refl) in H80. discriminate. }
  assert (H40 : SFleb (scrollPercent st) #40%js = false).
  { destruct (SFleb (scrollPercent st) #40%js) eqn:E; [|reflexivity].
    rewrite (SFleb_trans _ _ #80%js E eq_refl) in H80. discriminate. }
  rewrite executed_is_for_of.
  unfold Part000.animationScripts, Part000.for_of, isInRange.
  cbn [Animation.start Animation.end_ INTRO_entry ROTATION_entry
       CAMERA_MOVE_entry Part000.FINAL_SPIN_entry Range.start Range.end_
       ANIMATION_RANGES.INTRO ANIMATION_RANGES.ROTATION
       ANIMATION_RANGES.CAMERA_MOVE ANIMATION_RANGES.FINAL_SPIN].
  unfold gte, lte in *.
  rewrite H40, H60, H80, (SFltb_SFleb _ _ Hlt), Hle.
  rewrite !andb_false_r. reflexivity.
Qed.

Lemma camera_move_first_at_80 (st : State) :
  Part000.executed (set_scrollPercent st #80%js) = [2%nat].
Proof. reflexivity. Qed.

(** C8, as the code has it: for every progress outside [0,100] (below 0,
    above 100 or NaN) the tick runs no timeline entry.  If the progress is
    not [>= 100] the whole state, and so every transform, is what it was.
    If it is, the idle spin adds 0.01 to box rotation x and y and nothing
    else changes. *)
Theorem C8_outside_timeline (st : State) :
  inTimeline (scrollPercent st) = false ->
  Part000.executed st = []
  /\ ((scrollPercent st >= #100)%js = false ->
      Part000.playScrollAnimation st = st)
  /\ ((scrollPercent st >= #100)%js = true ->
      Part000.playScrollAnimation st
      = set_box st
          (Mesh.mk (Mesh.position (box st))
             (Vector3.mk
                (Vector3.x (Mesh.rotation (box st)) + hundredth)%js
                (Vector3.y (Mesh.rotation (box st)) + hundredth)%js
                (Vector3.z (Mesh.rotation (box st)))))).
Proof.
  intros Hout.
  unfold Part000.executed, Part000.playScrollAnimation,
    Part000.playScrollAnimation_traced.
  rewrite (outside_timeline_no_entry st Hout). simpl.
  split; [reflexivity|]. unfold Part000.idleSpin.
  split; intros H; rewrite H; reflexivity.
Qed.

Lemma C8_outside_timeline_witness :
  (Part000.executed (set_scrollPercent (init sampleEnv) (neg #5)%js) = []
   /\ Part000.playScrollAnimation
        (set_scrollPercent (init sampleEnv) (neg #5)%js)
      = set_scrollPercent (init sampleEnv) (neg #5)%js)
  /\ (Part000.executed (set_scrollPercent (init sampleEnv) #150%js) = []
      /\ Vector3.x
           (Mesh.rotation
              (box (Part000.playScrollAnimation
                      (set_scrollPercent (init sampleEnv) #150%js))))
         = (#1 + hundredth)%js).
Proof.
  destruct (C8_outside_timeline
              (set_scrollPercent (init sampleEnv) (neg #5)%js) eq_refl)
    as [H1 [H2 _]].
  destruct (C8_outside_timeline
              (set_scrollPercent (init sampleEnv) #150%js) eq_refl)
    as [H3 [_ H4]].
  split; [exact (conj H1 (H2 eq_refl))|].
  split; [exact H3|]. rewrite (H4 eq_refl). reflexivity.
Defined.

(** The transforms do not all stay fixed above 100: at progress 150 no
    entry runs, yet the tick changes the box rotation. *)
Lemma C8_counterexample :
  ~ (forall st : State,
       inTimeline (scrollPercent st) = false ->
       Part000.executed st = []
       /\ scene (Part000.playScrollAnimation st) = scene st).
Proof.
  intros H.
  destruct (H (set_scrollPercent (init sampleEnv) #150%js) eq_refl)
    as [_ Hscene].
  vm_compute in Hscene. discriminate Hscene.
Qed.

(** ** What a tick leaves alone *)

Lemma untouched_refl (st : State) : untouched st st.
Proof. unfold untouched. repeat split; reflexivity. Qed.

Lemma untouched_trans (st1 st2 st3 : State) :
  untouched st1 st2 -> untouched st2 st3 -> untouched st1 st3.
Proof.
  unfold untouched.
  intros (a1 & a2 & a3 & a4 & a5 & a6) (b1 & b2 & b3 & b4 & b5 & b6).
  repeat split; etransitivity; eassumption.
Qed.

Lemma entry_untouched (animation : Animation.t) (st : State) :
  In animation Part000.animationScripts ->
  untouched st (Animation.function animation st).
Proof.
  intros H. each_entry H; unfold untouched; repeat split; reflexivity.
Qed.

Lemma MainJs_entry_untouched (animation : Animation.t) (st : State) :
  In animation MainJs.animationScripts ->
  untouched st (Animation.function animation st).
Proof.
  intros H. each_entry H; unfold untouched; repeat split; reflexivity.
Qed.

Lemma idleSpin_untouched (st : State) : untouched st (Part000.idleSpin st).
Proof.
  unfold Part000.idleSpin.
  destruct (scrollPercent st >= #100)%js;
    unfold untouched; repeat split; reflexivity.
Qed.

Lemma for_of_untouched (scripts : list Animation.t) (i : nat) (st : State) :
  (forall animation, In animation scripts ->
     forall st0, untouched st0 (Animation.function animation st0)) ->
  untouched st (snd (Part000.for_of scripts i st)).
Proof.
  revert i. induction scripts as [|animation rest IH]; intros i H; simpl.
  - apply untouched_refl.
  - destruct (isInRange st animation); simpl.
    + apply H. left. reflexivity.
    + apply IH. intros a Ha. apply H. right. exact Ha.
Qed.

Lemma forEach_untouched (scripts : list Animation.t) (i : nat) (st : State) :
  (forall animation, In animation scripts ->
     forall st0, untouched st0 (Animation.function animation st0)) ->
  untouched st (snd (MainJs.forEach scripts i st)).
Proof.
  revert i st. induction scripts as [|animation rest IH]; intros i st H; simpl.
  - apply untouched_refl.
  - assert (Hrest : forall a, In a rest ->
              forall st0, untouched st0 (Animation.function a st0))
      by (intros a Ha; apply H; right; exact Ha).
    destruct (isInRange st animation).
    + specialize (IH (S i) (Animation.function animation st) Hrest).
      destruct (MainJs.forEach rest (S i) (Animation.function animation st))
        as [ran st'].
      simpl in *. eapply untouched_trans; [|exact IH].
      apply H. left. reflexivity.
    + apply IH. exact Hrest.
Qed.

(** C10: for every state, hence every progress value, a scheduler tick
    leaves box position x and y, torus position x and y and the torus
    rotation as they were, and touches nothing beside the scene; so does
    each timeline entry and the idle spin on its own. *)
Theorem C10_tick_frame :
  (forall st : State, untouched st (Part000.playScrollAnimation st))
  /\ (forall (animation : Animation.t) (st : State),
        In animation Part000.animationScripts ->
        untouched st (Animation.function animation st))
  /\ (forall st : State, untouched st (Part000.idleSpin st)).
Proof.
  split; [|split].
  - intros st.
    unfold Part000.playScrollAnimation, Part000.playScrollAnimation_traced.
    pose proof (for_of_untouched Part000.animationScripts 0 st
                  (fun a Ha st0 => entry_untouched a st0 Ha)) as H.
    destruct (Part000.for_of Part000.animationScripts 0 st) as [ran st'].
    simpl in *. eapply untouched_trans; [exact H|apply idleSpin_untouched].
  - intros animation st Hin. apply entry_untouched. exact Hin.
  - apply idleSpin_untouched.
Qed.

Lemma C10_tick_frame_witness :
  untouched (init sampleEnv)
    (Part000.playScrollAnimation (init sampleEnv))
  /\ untouched (init sampleEnv)
       (Animation.function INTRO_entry (init sampleEnv)).
Proof.
  destruct C10_tick_frame as (Htick & Hentry & _).
  exact (conj (Htick (init sampleEnv))
              (Hentry INTRO_entry (init sampleEnv) (or_introl eq_refl))).
Defined.

(** The same frame holds for the [forEach] scheduler of [src/main.js]. *)
Lemma MainJs_tick_frame (st : State) :
  untouched st (MainJs.playScrollAnimation st).
Proof.
  unfold MainJs.playScrollAnimation, MainJs.playScrollAnimation_traced.
  apply forEach_untouched.
  intros a Ha st0. apply MainJs_entry_untouched. exact Ha.
Qed.

(** ** Teardown *)

Lemma call_handleResize_scrollPercent (env : Env) (st : State) :
  scrollPercent (call handleResize env st) = scrollPercent st.
Proof. reflexivity. Qed.

Lemma call_handleScroll_view (env : Env) (st : State) :
  sizes (call handleScroll env st) = sizes st
  /\ camera (call handleScroll env st) = camera st
  /\ renderer (call handleScroll env st) = renderer st.
Proof. repeat split; reflexivity. Qed.

(** Delivering [type] to a list without the registration [(type, l)] can
    only call the other listener. *)
Lemma deliver_scroll_without_handleScroll
  (regs : list (EventType * Listener)) (env : Env) (st : State) :
  existsb (same_registration (scroll, handleScroll)) regs = false ->
  scrollPercent
    (fold_left
       (fun st r => if EventType_eqb (fst r) scroll then call (snd r) env st
                    else st) regs st)
  = scrollPercent st.
Proof.
  revert st. induction regs as [|[type l] rest IH]; intros st H; simpl.
  - reflexivity.
  - simpl in H. apply orb_false_iff in H. destruct H as [H1 H2].
    rewrite (IH _ H2).
    destruct type, l; simpl in *; try reflexivity; discriminate.
Qed.

Lemma deliver_resize_without_handleResize
  (regs : list (EventType * Listener)) (env : Env) (st : State) :
  existsb (same_registration (resize, handleResize)) regs = false ->
  let st' :=
    fold_left
      (fun st r => if EventType_eqb (fst r) resize then call (snd r) env st
                   else st) regs st in
  sizes st' = sizes st /\ camera st' = camera st
  /\ renderer st' = renderer st.
Proof.
  revert st. induction regs as [|[type l] rest IH]; intros st H; simpl.
  - repeat split; reflexivity.
  - simpl in H. apply orb_false_iff in H. destruct H as [H1 H2].
    destruct (IH (if EventType_eqb type resize then call l env st else st) H2)
      as (E1 & E2 & E3).
    rewrite E1, E2, E3.
    destruct type, l; simpl in *; try (repeat split; reflexivity);
      discriminate.
Qed.

Lemma filter_removes (r : EventType * Listener)
  (regs : list (EventType * Listener)) :
  existsb (same_registration r)
    (filter (fun r' => negb (same_registration r r')) regs) = false.
Proof.
  induction regs as [|r' rest IH]; simpl.
  - reflexivity.
  - destruct (same_registration r r') eqn:E; simpl.
    + exact IH.
    + rewrite E. exact IH.
Qed.

Lemma filter_keeps_absent (r q : EventType * Listener)
  (regs : list (EventType * Listener)) :
  existsb (same_registration r) regs = false ->
  existsb (same_registration r)
    (filter (fun r' => negb (same_registration q r')) regs) = false.
Proof.
  induction regs as [|r' rest IH]; simpl; intros H.
  - reflexivity.
  - apply orb_false_iff in H. destruct H as [H1 H2].
    destruct (same_registration q r'); simpl.
    + apply IH. exact H2.
    + rewrite H1. apply IH. exact H2.
Qed.

Lemma cleanup_unregisters (st : State) :
  existsb (same_registration (scroll, handleScroll))
    (listeners (cleanup st)) = false
  /\ existsb (same_registration (resize, handleResize))
       (listeners (cleanup st)) = false.
Proof.
  unfold cleanup, removeEventListener. simpl. split.
  - apply filter_keeps_absent. apply filter_removes.
  - apply filter_removes.
Qed.

(** C9: in any state, once [cleanup] has run, a scroll event leaves
    [scrollPercent] as it is, and a resize event leaves [sizes], the camera
    (aspect and projection included) and the renderer size as they are. *)
Theorem C9_events_after_cleanup (st : State) (env : Env) :
  scrollPercent (dispatchEvent scroll env (cleanup st))
  = scrollPercent (cleanup st)
  /\ sizes (dispatchEvent resize env (cleanup st)) = sizes (cleanup st)
  /\ camera (dispatchEvent resize env (cleanup st)) = camera (cleanup st)
  /\ renderer (dispatchEvent resize env (cleanup st))
     = renderer (cleanup st).
Proof.
  destruct (cleanup_unregisters st) as [Hs Hr].
  unfold dispatchEvent. split.
  - apply deliver_scroll_without_handleScroll. exact Hs.
  - apply (deliver_resize_without_handleResize _ env (cleanup st) Hr).
Qed.

(** Before [cleanup] the same events do write: the statement above is not
    about handlers that never change anything. *)
Lemma events_before_cleanup :
  scrollPercent (dispatchEvent scroll scrolledEnv (init sampleEnv)) = #50%js
  /\ scrollPercent (init sampleEnv) = #0%js
  /\ Sizes.width (sizes (dispatchEvent resize scrolledEnv (init sampleEnv)))
     = #1024%js
  /\ Sizes.width (sizes (init sampleEnv)) = #1280%js
  /\ dispatchEvent scroll scrolledEnv (cleanup (init sampleEnv))
     = cleanup (init sampleEnv)
  /\ dispatchEvent resize scrolledEnv (cleanup (init sampleEnv))
     = cleanup (init sampleEnv).
Proof. vm_compute. repeat split; reflexivity. Qed.

(** ** More on comparisons *)

Lemma SFleb_not_NaN (a b : number) :
  SFleb a b = true -> isNaN a = false /\ isNaN b = false.
Proof.
  unfold SFleb, SFcompare.
  destruct a, b; try discriminate; split; reflexivity.
Qed.

(** Two numbers that are not NaN are comparable. *)
Lemma SFleb_total (a b : number) :
  isNaN a = false -> isNaN b = false ->
  SFleb a b = false -> SFleb b a = true.
Proof.
  unfold SFleb, SFcompare.
  destruct a as [sa|sa| |sa ma ea], b as [sb|sb| |sb mb eb];
    try destruct sa; try destruct sb;
    try reflexivity; try discriminate;
    rewrite !Pos.compare_cont_spec; cbn [Pos.switch_Eq];
    destruct (Z.compare_spec ea eb), (Z.compare_spec eb ea);
    try lia; try reflexivity; try discriminate;
    destruct (Pos.compare_spec ma mb), (Pos.compare_spec mb ma);
    try lia; try reflexivity; discriminate.
Qed.

Lemma SFleb_antisym (a b : number) :
  SFleb a b = true -> SFleb b a = true -> SFeqb a b = true.
Proof.
  unfold SFleb, SFeqb, SFcompare.
  destruct a as [sa|sa| |sa ma ea], b as [sb|sb| |sb mb eb];
    try destruct sa; try destruct sb;
    try reflexivity; try discriminate;
    rewrite !Pos.compare_cont_spec; cbn [Pos.switch_Eq];
    destruct (Z.compare_spec ea eb), (Z.compare_spec eb ea);
    try lia; try reflexivity; try discriminate;
    destruct (Pos.compare_spec ma mb), (Pos.compare_spec mb ma);
    try lia; try reflexivity; discriminate.
Qed.

(** ** Which entry a tick runs *)

(** The loop test only looks at the progress. *)
Lemma isInRange_progress (st st' : State) (animation : Animation.t) :
  scrollPercent st' = scrollPercent st ->
  isInRange st' animation = isInRange st animation.
Proof. unfold isInRange. intros ->. reflexivity. Qed.

Lemma for_of_find (scripts : list Animation.t) (i : nat) (st : State) :
  snd (Part000.for_of scripts i st)
  = match find (isInRange st) scripts with
    | Some animation => Animation.function animation st
    | None => st
    end.
Proof.
  revert i. induction scripts as [|animation rest IH]; intros i; simpl.
  - reflexivity.
  - destruct (isInRange st animation); [reflexivity | apply IH].
Qed.

(** X1: for every progress inside [0,100] a tick of [part_000] runs
    exactly one entry, the first one whose upper bound is not below the
    progress: INTRO up to 40, ROTATION above 40 up to 60, CAMERA_MOVE above
    60 up to 80 and FINAL_SPIN above 80.  The four closed ranges cover
    [0,100] without a gap and every shared bound goes to the earlier
    range. *)
Theorem timeline_covers_0_100 (st : State) :
  inTimeline (scrollPercent st) = true ->
  Part000.executed st = [firstRange (scrollPercent st)].
Proof.
  unfold inTimeline, gte, lte. intros H.
  apply andb_true_iff in H. destruct H as [H0 H100].
  destruct (SFleb_not_NaN _ _ H0) as [_ Hp].
  assert (Hup : forall b : number,
            isNaN b = false -> SFleb (scrollPercent st) b = false ->
            SFleb b (scrollPercent st) = true)
    by (intros b Hb Hf; apply SFleb_total; assumption).
  rewrite executed_is_for_of.
  unfold Part000.animationScripts, Part000.for_of, isInRange, firstRange.
  cbn [Animation.start Animation.end_ INTRO_entry ROTATION_entry
       CAMERA_MOVE_entry Part000.FINAL_SPIN_entry Range.start Range.end_
       ANIMATION_RANGES.INTRO ANIMATION_RANGES.ROTATION
       ANIMATION_RANGES.CAMERA_MOVE ANIMATION_RANGES.FINAL_SPIN].
  unfold gte, lte. rewrite H0, H100.
  destruct (SFleb (scrollPercent st) #40%js) eqn:E40; [reflexivity|].
  rewrite (Hup #40%js eq_refl E40). rewrite andb_false_r.
  destruct (SFleb (scrollPercent st) #60%js) eqn:E60; [reflexivity|].
  rewrite (Hup #60%js eq_refl E60). rewrite andb_false_r.
  destruct (SFleb (scrollPercent st) #80%js) eqn:E80; [reflexivity|].
  rewrite (Hup #80%js eq_refl E80). reflexivity.
Qed.

Lemma timeline_covers_0_100_witness :
  Part000.executed (set_scrollPercent (init sampleEnv) #60%js) = [1%nat].
Proof.
  exact (timeline_covers_0_100
           (set_scrollPercent (init sampleEnv) #60%js) eq_refl).
Defined.

(** ** Frames at a constant progress *)

Lemma entry_keeps_progress (animation : Animation.t) (st : State) :
  In animation Part000.animationScripts ->
  scrollPercent (Animation.function animation st) = scrollPercent st.
Proof. intros H. each_entry H; reflexivity. Qed.

Lemma tick_unfold (st : State) :
  tick st
  = Part000.idleSpin
      match activeEntry st with
      | Some animation => Animation.function animation st
      | None => st
      end.
Proof.
  unfold tick, Part000.playScrollAnimation,
    Part000.playScrollAnimation_traced, activeEntry.
  rewrite <- for_of_find with (i := 0%nat).
  destruct (Part000.for_of Part000.animationScripts 0 st). reflexivity.
Qed.

Lemma find_same_test {A : Type} (f g : A -> bool) (l : list A) :
  (forall a, f a = g a) -> find f l = find g l.
Proof.
  intros H. induction l as [|a l IH]; simpl; [reflexivity|].
  rewrite H, IH. reflexivity.
Qed.

Lemma activeEntry_progress (st st' : State) :
  scrollPercent st' = scrollPercent st -> activeEntry st' = activeEntry st.
Proof.
  intros H. unfold activeEntry. apply find_same_test.
  intros a. apply isInRange_progress. exact H.
Qed.

Lemma activeEntry_In (st : State) (animation : Animation.t) :
  activeEntry st = Some animation ->
  In animation Part000.animationScripts.
Proof. intros H. apply (find_some _ _ H). Qed.

Lemma idleSpin_below_100 (st : State) :
  (scrollPercent st >= #100)%js = false -> Part000.idleSpin st = st.
Proof. unfold Part000.idleSpin. intros ->. reflexivity. Qed.

(** Below 100 a tick is the active entry, or nothing. *)
Lemma tick_below_100 (st : State) :
  (scrollPercent st >= #100)%js = false ->
  tick st = match activeEntry st with
            | Some animation => Animation.function animation st
            | None => st
            end
  /\ scrollPercent (tick st) = scrollPercent st.
Proof.
  intros H. rewrite tick_unfold.
  destruct (activeEntry st) as [a|] eqn:E.
  - pose proof (entry_keeps_progress a st (activeEntry_In st a E)) as Hp.
    rewrite idleSpin_below_100 by (rewrite Hp; exact H).
    split; [reflexivity | exact Hp].
  - rewrite idleSpin_below_100 by exact H. split; reflexivity.
Qed.

(** Every entry reaches its fixed point with the second call: the first
    call still aims the camera from where it stood before. *)
Lemma entry_settles (animation : Animation.t) (st : State) :
  In animation Part000.animationScripts ->
  Animation.function animation
    (Animation.function animation (Animation.function animation st))
  = Animation.function animation (Animation.function animation st).
Proof. intros H. each_entry H; reflexivity. Qed.

(** X2: while the progress stays the same and is not [>= 100], the third
    frame changes nothing any more: whatever the state, two ticks bring
    the scene to a fixed point of [tick].  (One tick is not enough,
    because [lookAt] runs before the camera is moved and before the box
    is moved.) *)
Theorem tick_settles_in_two_frames (st : State) :
  (scrollPercent st >= #100)%js = false ->
  tick (tick (tick st)) = tick (tick st).
Proof.
  intros H.
  destruct (tick_below_100 st H) as [T1 P1].
  assert (H1 : (scrollPercent (tick st) >= #100)%js = false)
    by (rewrite P1; exact H).
  destruct (tick_below_100 (tick st) H1) as [T2 P2].
  assert (H2 : (scrollPercent (tick (tick st)) >= #100)%js = false)
    by (rewrite P2; exact H1).
  destruct (tick_below_100 (tick (tick st)) H2) as [T3 _].
  rewrite (activeEntry_progress _ _ P2), (activeEntry_progress _ _ P1) in T3.
  rewrite (activeEntry_progress _ _ P1) in T2.
  destruct (activeEntry st) as [a|] eqn:E.
  - rewrite T3, T2, T1.
    apply entry_settles. exact (activeEntry_In st a E).
  - rewrite T3. reflexivity.
Qed.

Lemma tick_settles_in_two_frames_witness :
  tick (tick (tick (set_scrollPercent (init sampleEnv) #20%js)))
  = tick (tick (set_scrollPercent (init sampleEnv) #20%js)).
Proof.
  exact (tick_settles_in_two_frames
           (set_scrollPercent (init sampleEnv) #20%js) eq_refl).
Defined.

(** The second frame is needed: after one INTRO frame the camera looks at
    the place the box had before that frame. *)
Lemma one_frame_is_not_enough :
  let st := set_scrollPercent (init sampleEnv) #20%js in
  Camera.orientation (camera (tick st))
  = LookingAt CAMERA_DEFAULT_POSITION BOX_INITIAL_POSITION
  /\ Mesh.position (box (tick st)) <> BOX_INITIAL_POSITION
  /\ Camera.orientation (camera (tick (tick st)))
     = LookingAt CAMERA_DEFAULT_POSITION (Mesh.position (box (tick st))).
Proof.
  vm_compute. repeat split; try reflexivity. discriminate.
Qed.

(** ** Teardown, continued *)

Lemma entry_cleanup_commute (animation : Animation.t) (st : State) :
  In animation Part000.animationScripts ->
  Animation.function animation (cleanup st)
  = cleanup (Animation.function animation st).
Proof. intros H. each_entry H; reflexivity. Qed.

Lemma idleSpin_cleanup_commute (st : State) :
  Part000.idleSpin (cleanup st) = cleanup (Part000.idleSpin st).
Proof.
  unfold Part000.idleSpin.
  change (scrollPercent (cleanup st)) with (scrollPercent st).
  destruct (scrollPercent st >= #100)%js; reflexivity.
Qed.

(** X3: [cleanup] does not stop or change the animation: a frame after
    [cleanup] does to the scene exactly what it would have done before,
    that is, [tick] and [cleanup] commute. *)
Theorem tick_cleanup_commute (st : State) :
  tick (cleanup st) = cleanup (tick st).
Proof.
  rewrite !tick_unfold.
  rewrite (activeEntry_progress st (cleanup st) eq_refl).
  rewrite <- idleSpin_cleanup_commute.
  destruct (activeEntry st) as [a|] eqn:E; [|reflexivity].
  rewrite (entry_cleanup_commute a st (activeEntry_In st a E)).
  reflexivity.
Qed.

Lemma filter_twice {A : Type} (f g : A -> bool) (l : list A) :
  filter g (filter f (filter g (filter f l))) = filter g (filter f l).
Proof.
  induction l as [|a l IH]; simpl; [reflexivity|].
  destruct (f a) eqn:Ef; simpl; [|exact IH].
  destruct (g a) eqn:Eg; simpl; [|exact IH].
  rewrite Ef. simpl. rewrite Eg. rewrite IH. reflexivity.
Qed.

(** X4: calling [cleanup] a second time changes nothing. *)
Theorem cleanup_idempotent (st : State) :
  cleanup (cleanup st) = cleanup st.
Proof.
  unfold cleanup, removeEventListener, dispose_all, set_listeners.
  cbn [scrollPercent sizes camera box torus renderer listeners
       boxGeometryDisposed boxMaterialDisposed torusGeometryDisposed
       torusMaterialDisposed].
  rewrite filter_twice. reflexivity.
Qed.

(** ** The scroll handler *)

Lemma not_finite_outside_timeline (p : number) :
  isFinite p = false -> inTimeline p = false.
Proof. destruct p as [s|[]| |s m e]; try discriminate; reflexivity. Qed.

Lemma mul_100_not_finite (a : number) :
  isFinite a = false -> isFinite (a * #100)%js = false.
Proof. destruct a as [s|s| |s m e]; try discriminate; reflexivity. Qed.

Lemma mul_100_zero (a : number) :
  isZero a = true -> isZero (a * #100)%js = true.
Proof. destruct a as [s|s| |s m e]; try discriminate; reflexivity. Qed.

Lemma div_zero_is_zero (n d : number) :
  isZero n = true -> isNonzero d = true -> isZero (n / d)%js = true.
Proof. destruct n, d; try discriminate; reflexivity. Qed.

Lemma zero_progress_runs_intro (st : State) :
  isZero (scrollPercent st) = true -> Part000.executed st = [0%nat].
Proof.
  intros H. rewrite executed_is_for_of.
  unfold Part000.animationScripts, Part000.for_of, isInRange.
  destruct (scrollPercent st) as [s|s| |s m e]; try discriminate.
  destruct s; reflexivity.
Qed.



(** X6: at the top of a scrollable page ([scrollTop] a zero,
    [scrollHeight != clientHeight], both finite) the scroll handler stores
    a zero and the next tick runs INTRO (index 0) only. *)
Theorem handleScroll_top_is_0 (env : Env) (st : State) :
  valid (scrollHeight env) = true -> valid (clientHeight env) = true ->
  isFinite (scrollHeight env) = true -> isFinite (clientHeight env) = true ->
  (scrollHeight env != clientHeight env)%js = true ->
  isZero (scrollTop env) = true ->
  isZero (scrollPercent (run_handleScroll env st)) = true
  /\ Part000.executed (run_handleScroll env st) = [0%nat].
Proof.
  intros Vh Vc Fh Fc Hne Htop.
  unfold notEqual in Hne. apply negb_true_iff in Hne.
  pose proof (sub_finite_nonzero _ _ Vh Vc Fh Fc Hne) as HD.
  assert (E : isZero (scrollPercent (run_handleScroll env st)) = true).
  { unfold run_handleScroll. cbn [scrollPercent set_scrollPercent].
    apply mul_100_zero. apply div_zero_is_zero; assumption. }
  split; [exact E | apply zero_progress_runs_intro; exact E].
Qed.

Lemma handleScroll_top_is_0_witness :
  isZero (scrollPercent (run_handleScroll sampleEnv (init scrolledEnv)))
  = true
  /\ Part000.executed (run_handleScroll sampleEnv (init scrolledEnv))
     = [0%nat].
Proof.
  exact (handleScroll_top_is_0 sampleEnv (init scrolledEnv)
           eq_refl eq_refl eq_refl eq_refl eq_refl eq_refl).
Defined.

(** X7: on a page that cannot scroll ([scrollHeight == clientHeight]) the
    scroll handler divides by zero: the stored progress is never finite,
    so the following tick runs no timeline entry; with [scrollTop] a zero
    the progress is NaN and that tick changes nothing at all. *)
Theorem handleScroll_unscrollable (env : Env) (st : State) :
  (scrollHeight env == clientHeight env)%js = true ->
  isFinite (scrollPercent (run_handleScroll env st)) = false
  /\ Part000.executed (run_handleScroll env st) = []
  /\ (isZero (scrollTop env) = true ->
      isNaN (scrollPercent (run_handleScroll env st)) = true
      /\ tick (run_handleScroll env st) = run_handleScroll env st).
Proof.
  intros Heq.
  assert (Heq' : (clientHeight env == scrollHeight env)%js = true)
    by (unfold equal in *; rewrite SFeqb_sym; exact Heq).
  assert (HF : isFinite (scrollPercent (run_handleScroll env st)) = false).
  { unfold run_handleScroll. cbn [scrollPercent set_scrollPercent].
    apply mul_100_not_finite.
    destruct (sub_of_equal _ _ Heq') as [Hz|Hn].
    - apply div_by_zero_not_finite. exact Hz.
    - rewrite Hn, div_by_NaN. reflexivity. }
  pose proof (outside_timeline_no_entry _
                (not_finite_outside_timeline _ HF)) as Hnone.
  split; [exact HF|]. split.
  - rewrite executed_is_for_of, Hnone. reflexivity.
  - intros Htop.
    assert (HN : isNaN (scrollPercent (run_handleScroll env st)) = true).
    { unfold run_handleScroll. cbn [scrollPercent set_scrollPercent].
      destruct (sub_of_equal _ _ Heq') as [Hz|Hn].
      - destruct (scrollTop env) as [s|s| |s m e]; try discriminate.
        destruct (scrollHeight env - clientHeight env)%js
          as [t|t| |t n f]; try discriminate. reflexivity.
      - rewrite Hn, div_by_NaN. reflexivity. }
    split; [exact HN|].
    unfold tick, Part000.playScrollAnimation,
      Part000.playScrollAnimation_traced.
    rewrite Hnone. cbn [snd]. unfold Part000.idleSpin.
    destruct (scrollPercent (run_handleScroll env st)) as [s|s| |s m e];
      try discriminate. reflexivity.
Qed.

Lemma handleScroll_unscrollable_witness :
  isFinite
    (scrollPercent
       (run_handleScroll (Build_Env #0 #800 #800 #1280 #800 #1)%js
          (init sampleEnv))) = false
  /\ tick (run_handleScroll (Build_Env #0 #800 #800 #1280 #800 #1)%js
             (init sampleEnv))
     = run_handleScroll (Build_Env #0 #800 #800 #1280 #800 #1)%js
         (init sampleEnv).
Proof.
  destruct (handleScroll_unscrollable
              (Build_Env #0 #800 #800 #1280 #800 #1)%js (init sampleEnv)
              eq_refl) as (H1 & _ & H3).
  exact (conj H1 (proj2 (H3 eq_refl))).
Defined.

(** ** The handlers against each other *)

(** The handlers keep no history and do not interfere: a later
    scroll (resize) event overrides an earlier one completely, and a
    scroll and a resize event commute. *)
Lemma handlers_last_wins_and_commute (e1 e2 : Env) (st : State) :
  run_handleScroll e2 (run_handleScroll e1 st) = run_handleScroll e2 st
  /\ run_handleResize e2 (run_handleResize e1 st) = run_handleResize e2 st
  /\ run_handleScroll e1 (run_handleResize e2 st)
     = run_handleResize e2 (run_handleScroll e1 st).
Proof. repeat split; reflexivity. Qed.

(** ** Invariants of the running page *)

Lemma tick_besideScene (st : State) : besideScene (tick st) = besideScene st.
Proof.
  unfold tick, Part000.playScrollAnimation,
    Part000.playScrollAnimation_traced.
  pose proof (for_of_untouched Part000.animationScripts 0 st
                (fun a Ha st0 => entry_untouched a st0 Ha)) as H.
  destruct (Part000.for_of Part000.animationScripts 0 st) as [ran st'].
  cbn [snd] in *.
  destruct (untouched_trans _ _ _ H (idleSpin_untouched st'))
    as (_ & _ & _ & _ & _ & Hb).
  exact Hb.
Qed.

Lemma tick_untouched (st : State) : untouched st (tick st).
Proof.
  unfold tick, Part000.playScrollAnimation,
    Part000.playScrollAnimation_traced.
  pose proof (for_of_untouched Part000.animationScripts 0 st
                (fun a Ha st0 => entry_untouched a st0 Ha)) as H.
  destruct (Part000.for_of Part000.animationScripts 0 st) as [ran st'].
  cbn [snd] in *.
  exact (untouched_trans _ _ _ H (idleSpin_untouched st')).
Qed.

(** The two registrations the module makes. *)
Lemma init_listeners (env : Env) :
  listeners (init env) = [(scroll, handleScroll); (resize, handleResize)].
Proof. reflexivity. Qed.

Lemma dispatch_unregistered (type : EventType) (env : Env) (st : State) :
  listeners st = [] -> dispatchEvent type env st = st.
Proof. unfold dispatchEvent. intros ->. reflexivity. Qed.

Lemma dispatch_registered (type : EventType) (env : Env) (st : State) :
  listeners st = [(scroll, handleScroll); (resize, handleResize)] ->
  dispatchEvent type env st
  = match type with
    | scroll => run_handleScroll env st
    | resize => run_handleResize env st
    end.
Proof.
  unfold dispatchEvent. intros ->. destruct type; reflexivity.
Qed.

(** The listener list of a running page is the pair registered at load,
    or empty once [cleanup] has run. *)
Lemma step_listeners (st : State) (ev : Event) :
  listeners st = [(scroll, handleScroll); (resize, handleResize)]
  \/ listeners st = [] ->
  listeners (step st ev)
  = if isTeardown ev then [] else listeners st.
Proof.
  intros H. destruct ev as [env|env| |]; cbn [step isTeardown].
  - destruct H as [H|H].
    + rewrite (dispatch_registered scroll env st H). reflexivity.
    + rewrite (dispatch_unregistered scroll env st H). reflexivity.
  - destruct H as [H|H].
    + rewrite (dispatch_registered resize env st H). reflexivity.
    + rewrite (dispatch_unregistered resize env st H). reflexivity.
  - pose proof (tick_besideScene st) as Hb. unfold besideScene in Hb.
    congruence.
  - unfold cleanup, removeEventListener, dispose_all, set_listeners.
    cbn [listeners]. destruct H as [-> | ->]; reflexivity.
Qed.

Lemma step_keeps_registration_shape (st : State) (ev : Event) :
  listeners st = [(scroll, handleScroll); (resize, handleResize)]
  \/ listeners st = [] ->
  listeners (step st ev) = [(scroll, handleScroll); (resize, handleResize)]
  \/ listeners (step st ev) = [].
Proof.
  intros H. rewrite (step_listeners st ev H).
  destruct (isTeardown ev); [right; reflexivity | exact H].
Qed.

(** An invariant of [step] that holds at load holds in every state the
    page can reach. *)
Lemma run_invariant (P : State -> Prop) :
  (forall st ev,
     (listeners st = [(scroll, handleScroll); (resize, handleResize)]
      \/ listeners st = []) ->
     P st -> P (step st ev)) ->
  forall (evs : list Event) (st : State),
    (listeners st = [(scroll, handleScroll); (resize, handleResize)]
     \/ listeners st = []) ->
    P st -> P (run evs st).
Proof.
  intros Hstep evs. unfold run.
  induction evs as [|ev evs IH]; intros st HL HP; cbn [fold_left].
  - exact HP.
  - apply IH.
    + apply step_keeps_registration_shape. exact HL.
    + apply Hstep; assumption.
Qed.

Lemma handleResize_consistent (env : Env) (st : State) :
  viewportConsistent (run_handleResize env st).
Proof. unfold viewportConsistent. repeat split; reflexivity. Qed.

Lemma step_viewportConsistent (st : State) (ev : Event) :
  listeners st = [(scroll, handleScroll); (resize, handleResize)]
  \/ listeners st = [] ->
  viewportConsistent st -> viewportConsistent (step st ev).
Proof.
  intros HL HP. destruct ev as [env|env| |]; cbn [step].
  - destruct HL as [H|H].
    + rewrite (dispatch_registered scroll env st H). exact HP.
    + rewrite (dispatch_unregistered scroll env st H). exact HP.
  - destruct HL as [H|H].
    + rewrite (dispatch_registered resize env st H).
      apply handleResize_consistent.
    + rewrite (dispatch_unregistered resize env st H). exact HP.
  - pose proof (tick_besideScene st) as Hb. unfold besideScene in Hb.
    unfold viewportConsistent in *.
    injection Hb as _ Hs Ha Hp Hr _.
    rewrite Hs, Ha, Hp, Hr. exact HP.
  - exact HP.
Qed.

(** X8: in every state the page can reach from load, by any sequence of
    scroll events, resize events, frames and [cleanup] calls, the camera's
    projection matches its aspect, the aspect is [width / height] of
    [sizes], and the renderer has the size of [sizes]. *)
Theorem viewport_stays_consistent (env : Env) (evs : list Event) :
  viewportConsistent (run evs (init env)).
Proof.
  apply (run_invariant viewportConsistent step_viewportConsistent).
  - left. reflexivity.
  - unfold viewportConsistent. repeat split; reflexivity.
Qed.

Lemma step_staticCoordinates (st : State) (ev : Event) :
  listeners st = [(scroll, handleScroll); (resize, handleResize)]
  \/ listeners st = [] ->
  staticCoordinates st -> staticCoordinates (step st ev).
Proof.
  intros HL HP. destruct ev as [env|env| |]; cbn [step].
  - destruct HL as [H|H].
    + rewrite (dispatch_registered scroll env st H). exact HP.
    + rewrite (dispatch_unregistered scroll env st H). exact HP.
  - destruct HL as [H|H].
    + rewrite (dispatch_registered resize env st H). exact HP.
    + rewrite (dispatch_unregistered resize env st H). exact HP.
  - destruct (tick_untouched st) as (U1 & U2 & U3 & U4 & U5 & _).
    unfold staticCoordinates in *.
    rewrite U1, U2, U3, U4, U5. exact HP.
  - exact HP.
Qed.

(** X9: in every state the page can reach from load, the box is still at
    x = 0, y = 0.5, the torus at x = 0, y = 1 and the torus has never been
    rotated: the animation moves both meshes along z only. *)
Theorem meshes_stay_on_the_z_axis (env : Env) (evs : list Event) :
  staticCoordinates (run evs (init env)).
Proof.
  apply (run_invariant staticCoordinates step_staticCoordinates).
  - left. reflexivity.
  - unfold staticCoordinates. repeat split; reflexivity.
Qed.

Lemma step_after_cleanup (st : State) (ev : Event) :
  listeners st = [] ->
  listeners (step st ev) = []
  /\ scrollPercent (step st ev) = scrollPercent st
  /\ sizes (step st ev) = sizes st
  /\ Camera.aspect (camera (step st ev)) = Camera.aspect (camera st)
  /\ Camera.projectionAspect (camera (step st ev))
     = Camera.projectionAspect (camera st).
Proof.
  intros HL. destruct ev as [env|env| |]; cbn [step].
  - rewrite (dispatch_unregistered scroll env st HL).
    repeat split; first [exact HL | reflexivity].
  - rewrite (dispatch_unregistered resize env st HL).
    repeat split; first [exact HL | reflexivity].
  - pose proof (tick_besideScene st) as Hb. unfold besideScene in Hb.
    injection Hb as Hp Hs Ha Hq _ Hl.
    rewrite Hp, Hs, Ha, Hq, Hl. repeat split; first [exact HL | reflexivity].
  - split; [|repeat split; reflexivity].
    unfold cleanup, removeEventListener, dispose_all, set_listeners.
    cbn [listeners]. rewrite HL. reflexivity.
Qed.

Lemma run_after_cleanup (evs : list Event) (st : State) :
  listeners st = [] ->
  listeners (run evs st) = []
  /\ scrollPercent (run evs st) = scrollPercent st
  /\ sizes (run evs st) = sizes st
  /\ Camera.aspect (camera (run evs st)) = Camera.aspect (camera st)
  /\ Camera.projectionAspect (camera (run evs st))
     = Camera.projectionAspect (camera st).
Proof.
  unfold run. revert st.
  induction evs as [|ev evs IH]; intros st HL; cbn [fold_left].
  - repeat split; first [exact HL | reflexivity].
  - destruct (step_after_cleanup st ev HL) as (L & P & S & A & Q).
    destruct (IH (step st ev) L) as (L' & P' & S' & A' & Q').
    rewrite P', S', A', Q', P, S, A, Q.
    repeat split; first [exact L' | reflexivity].
Qed.

(** X10: teardown is final.  Once [cleanup] has been called on a running
    page, no later sequence of scroll events, resize events, frames or
    further [cleanup] calls changes the progress, [sizes] or the camera's
    aspect and projection, and no listener is ever registered again. *)
Theorem teardown_is_final (env : Env) (before after : list Event) :
  let st := cleanup (run before (init env)) in
  listeners (run after st) = []
  /\ scrollPercent (run after st) = scrollPercent st
  /\ sizes (run after st) = sizes st
  /\ Camera.aspect (camera (run after st)) = Camera.aspect (camera st)
  /\ Camera.projectionAspect (camera (run after st))
     = Camera.projectionAspect (camera st).
Proof.
  intros st. apply run_after_cleanup. subst st.
  assert (HL : listeners (run before (init env))
               = [(scroll, handleScroll); (resize, handleResize)]
               \/ listeners (run before (init env)) = []).
  { apply (run_invariant
             (fun s => listeners s
                       = [(scroll, handleScroll); (resize, handleResize)]
                       \/ listeners s = [])).
    - intros s ev Hs _. apply step_keeps_registration_shape. exact Hs.
    - left. reflexivity.
    - left. reflexivity. }
  unfold cleanup, removeEventListener, dispose_all, set_listeners.
  cbn [listeners]. destruct HL as [-> | ->]; reflexivity.
Qed.

(** Before teardown the same events do reach the handlers. *)
Lemma events_reach_handlers_before_teardown :
  scrollPercent (run [ScrollEvent scrolledEnv; Frame] (init sampleEnv))
  = (#50)%js
  /\ scrollPercent
       (run [Teardown; ScrollEvent scrolledEnv; Frame] (init sampleEnv))
     = (#0)%js.
Proof. split; reflexivity. Qed.

(** ** The [forEach] scheduler of [src/main.js] *)

Lemma MainJs_entry_keeps_progress (animation : Animation.t) (st : State) :
  In animation MainJs.animationScripts ->
  scrollPercent (Animation.function animation st) = scrollPercent st.
Proof. intros H. each_entry H; reflexivity. Qed.

Lemma filter_same_test {A : Type} (f g : A -> bool) (l : list A) :
  (forall a, f a = g a) -> filter f l = filter g l.
Proof.
  intros H. induction l as [|a l IH]; simpl; [reflexivity|].
  rewrite H, IH. reflexivity.
Qed.

(** [forEach] calls, in array order, every entry that is in range when
    the tick starts. *)
Lemma forEach_spec (scripts : list Animation.t) (i : nat) (st : State) :
  (forall a, In a scripts ->
     forall s, scrollPercent (Animation.function a s) = scrollPercent s) ->
  MainJs.forEach scripts i st
  = (map fst
       (filter (fun ia => isInRange st (snd ia))
          (combine (seq i (length scripts)) scripts)),
     fold_left (fun s a => Animation.function a s)
       (filter (isInRange st) scripts) st).
Proof.
  revert i st. induction scripts as [|a rest IH]; intros i st H.
  - reflexivity.
  - assert (Hrest : forall b, In b rest ->
              forall s, scrollPercent (Animation.function b s)
                        = scrollPercent s)
      by (intros b Hb; apply H; right; exact Hb).
    cbn [MainJs.forEach length seq combine filter snd].
    destruct (isInRange st a) eqn:E.
    + rewrite (IH (S i) (Animation.function a st) Hrest).
      cbn [map fst fold_left]. f_equal.
      * f_equal. f_equal. apply filter_same_test. intros [j b].
        apply isInRange_progress. apply H. left. reflexivity.
      * f_equal. apply filter_same_test. intros b.
        apply isInRange_progress. apply H. left. reflexivity.
    + apply IH. exact Hrest.
Qed.

(** Two ranges that do not touch are never both in range. *)
Lemma ranges_apart (p lo hi : number) :
  SFleb lo hi = false ->
  isNaN lo = false -> isNaN hi = false ->
  SFleb p hi = true -> SFleb lo p = true -> False.
Proof.
  intros Hf _ _ H1 H2.
  rewrite (SFleb_trans _ _ _ H2 H1) in Hf. discriminate.
Qed.

(** X11: a tick of [src/main.js] runs at most two entries, and two only
    when the progress equals a shared bound, 40, 60 or 80. *)
Theorem MainJs_at_most_two_entries (st : State) :
  (length (MainJs.executed st) <= 2)%nat
  /\ (length (MainJs.executed st) = 2%nat ->
      (scrollPercent st == #40)%js = true
      \/ (scrollPercent st == #60)%js = true
      \/ (scrollPercent st == #80)%js = true).
Proof.
  unfold MainJs.executed, MainJs.playScrollAnimation_traced.
  rewrite (forEach_spec MainJs.animationScripts 0 st
             (fun a Ha s => MainJs_entry_keeps_progress a s Ha)).
  cbn [fst MainJs.animationScripts length seq combine filter snd].
  unfold isInRange.
  cbn [Animation.start Animation.end_ INTRO_entry ROTATION_entry
       CAMERA_MOVE_entry MainJs.FINAL_SPIN_entry Range.start Range.end_
       ANIMATION_RANGES.INTRO ANIMATION_RANGES.ROTATION
       ANIMATION_RANGES.CAMERA_MOVE ANIMATION_RANGES.FINAL_SPIN].
  unfold gte, lte, equal.
  set (p := scrollPercent st).
  destruct (SFleb #0%js p) eqn:G0; destruct (SFleb p #40%js) eqn:L40;
    destruct (SFleb #40%js p) eqn:G40; destruct (SFleb p #60%js) eqn:L60;
    destruct (SFleb #60%js p) eqn:G60; destruct (SFleb p #80%js) eqn:L80;
    destruct (SFleb #80%js p) eqn:G80; destruct (SFleb p #100%js) eqn:L100;
    cbn [andb filter map fst length];
    try (exfalso; exact (ranges_apart p #60%js #40%js eq_refl eq_refl
                           eq_refl L40 G60));
    try (exfalso; exact (ranges_apart p #80%js #40%js eq_refl eq_refl
                           eq_refl L40 G80));
    try (exfalso; exact (ranges_apart p #80%js #60%js eq_refl eq_refl
                           eq_refl L60 G80));
    (split; [lia|]); intros Hlen; try discriminate Hlen.
  all: first
    [ left; exact (SFleb_antisym _ _ L40 G40)
    | right; left; exact (SFleb_antisym _ _ L60 G60)
    | right; right; exact (SFleb_antisym _ _ L80 G80) ].
Qed.

Lemma MainJs_at_most_two_entries_witness :
  (scrollPercent (set_scrollPercent (init sampleEnv) #60%js) == #40)%js
  = true
  \/ (scrollPercent (set_scrollPercent (init sampleEnv) #60%js) == #60)%js
     = true
  \/ (scrollPercent (set_scrollPercent (init sampleEnv) #60%js) == #80)%js
     = true.
Proof.
  exact (proj2 (MainJs_at_most_two_entries
                  (set_scrollPercent (init sampleEnv) #60%js)) eq_refl).
Defined.

Lemma lerp_to_2PI_at_1 (a : number) :
  isFinite a = true -> lerp a (PI * #2)%js #1%js = (PI * #2)%js.
Proof.
  destruct a as [s|s| |s m e]; try discriminate; intros _;
    destruct s; reflexivity.
Qed.

(** X12: FINAL_SPIN of [src/main.js] interpolates from the rotation it
    finds: at progress 80 it leaves a finite box rotation x and y as they
    are, and at progress 100 it puts both at exactly 2 pi, whatever finite
    rotation earlier frames had accumulated. *)
Theorem MainJs_final_spin_ends (st : State) :
  valid (Vector3.x (Mesh.rotation (box st))) = true ->
  valid (Vector3.y (Mesh.rotation (box st))) = true ->
  isFinite (Vector3.x (Mesh.rotation (box st))) = true ->
  isFinite (Vector3.y (Mesh.rotation (box st))) = true ->
  let spin := Animation.function MainJs.FINAL_SPIN_entry in
  let st80 := set_scrollPercent st #80%js in
  let st100 := set_scrollPercent st #100%js in
  (Vector3.x (Mesh.rotation (box (spin st80)))
   == Vector3.x (Mesh.rotation (box st)))%js = true
  /\ (Vector3.y (Mesh.rotation (box (spin st80)))
      == Vector3.y (Mesh.rotation (box st)))%js = true
  /\ Vector3.x (Mesh.rotation (box (spin st100))) = (PI * #2)%js
  /\ Vector3.y (Mesh.rotation (box (spin st100))) = (PI * #2)%js.
Proof.
  intros Vx Vy Fx Fy spin st80 st100. subst spin st80 st100.
  cbn [Animation.function MainJs.FINAL_SPIN_entry].
  change (scalePercent (Range.start ANIMATION_RANGES.FINAL_SPIN)
            (Range.end_ ANIMATION_RANGES.FINAL_SPIN)
            (scrollPercent (set_scrollPercent st #80%js)))
    with (#0)%js.
  change (scalePercent (Range.start ANIMATION_RANGES.FINAL_SPIN)
            (Range.end_ ANIMATION_RANGES.FINAL_SPIN)
            (scrollPercent (set_scrollPercent st #100%js)))
    with (#1)%js.
  cbn [set_box_rotation_x set_box_rotation_y set_box box
       set_scrollPercent Mesh.set_rotation Mesh.rotation Vector3.set_x
       Vector3.set_y Vector3.x Vector3.y].
  repeat apply conj.
  - apply lerp_at_0; [exact Vx | exact Fx | reflexivity].
  - apply lerp_at_0; [exact Vy | exact Fy | reflexivity].
  - apply lerp_to_2PI_at_1. exact Fx.
  - apply lerp_to_2PI_at_1. exact Fy.
Qed.

Lemma MainJs_final_spin_ends_witness :
  Vector3.x
    (Mesh.rotation
       (box (Animation.function MainJs.FINAL_SPIN_entry
               (set_scrollPercent (init sampleEnv) #100%js))))
  = (PI * #2)%js.
Proof.
  destruct (MainJs_final_spin_ends (init sampleEnv)
              eq_refl eq_refl eq_refl eq_refl) as (_ & _ & H & _).
  exact H.
Defined.

(** ** The two schedulers side by side *)

Lemma in_range_bounds (st : State) (animation : Animation.t) :
  isInRange st animation = true ->
  SFleb (Animation.start animation) (scrollPercent st) = true
  /\ SFleb (scrollPercent st) (Animation.end_ animation) = true.
Proof.
  unfold isInRange, gte, lte. intros H.
  apply andb_true_iff in H. exact H.
Qed.

(** X13: below 80 and away from the shared bounds 40 and 60, and also for
    a NaN progress, a tick of [src/main.js] and a tick of
    [src/unnamed/part_000] are the same function of the state: the two
    files differ only at the shared bounds and from 80 on. *)
Theorem schedulers_agree_below_80 (st : State) :
  (scrollPercent st >= #80)%js = false ->
  (scrollPercent st == #40)%js = false ->
  (scrollPercent st == #60)%js = false ->
  MainJs.playScrollAnimation st = Part000.playScrollAnimation st.
Proof.
  unfold gte, equal. intros H80 H40 H60.
  assert (H100 : (scrollPercent st >= #100)%js = false).
  { unfold gte. destruct (SFleb #100%js (scrollPercent st)) eqn:E;
      [|reflexivity].
    rewrite (SFleb_trans #80%js #100%js _ eq_refl E) in H80.
    discriminate. }
  unfold MainJs.playScrollAnimation, MainJs.playScrollAnimation_traced.
  rewrite (forEach_spec MainJs.animationScripts 0 st
             (fun a Ha s => MainJs_entry_keeps_progress a s Ha)).
  change (Part000.playScrollAnimation st) with (tick st).
  rewrite tick_unfold. unfold activeEntry.
  cbn [snd MainJs.animationScripts Part000.animationScripts filter find].
  assert (F3 : isInRange st MainJs.FINAL_SPIN_entry = false)
    by (unfold isInRange, gte; cbn [Animation.start
          MainJs.FINAL_SPIN_entry Range.start ANIMATION_RANGES.FINAL_SPIN];
        rewrite H80; reflexivity).
  assert (F3' : isInRange st Part000.FINAL_SPIN_entry = false)
    by exact F3.
  rewrite F3, F3'.
  destruct (isInRange st INTRO_entry) eqn:B0;
    destruct (isInRange st ROTATION_entry) eqn:B1;
    destruct (isInRange st CAMERA_MOVE_entry) eqn:B2;
    cbn [fold_left];
    try (apply in_range_bounds in B0; destruct B0 as [G0 L40];
         cbn [Animation.start Animation.end_ INTRO_entry Range.start
              Range.end_ ANIMATION_RANGES.INTRO] in G0, L40);
    try (apply in_range_bounds in B1; destruct B1 as [G40 L60];
         cbn [Animation.start Animation.end_ ROTATION_entry Range.start
              Range.end_ ANIMATION_RANGES.ROTATION] in G40, L60);
    try (apply in_range_bounds in B2; destruct B2 as [G60 L80];
         cbn [Animation.start Animation.end_ CAMERA_MOVE_entry Range.start
              Range.end_ ANIMATION_RANGES.CAMERA_MOVE] in G60, L80);
    try (rewrite (SFleb_antisym _ _ L40 G40) in H40; discriminate);
    try (rewrite (SFleb_antisym _ _ L60 G60) in H60; discriminate);
    try (exfalso; exact (ranges_apart _ #60%js #40%js eq_refl eq_refl
                           eq_refl L40 G60));
    symmetry; apply idleSpin_below_100; exact H100.
Qed.

Lemma schedulers_agree_below_80_witness :
  MainJs.playScrollAnimation (set_scrollPercent (init sampleEnv) #50%js)
  = Part000.playScrollAnimation (set_scrollPercent (init sampleEnv) #50%js).
Proof.
  exact (schedulers_agree_below_80
           (set_scrollPercent (init sampleEnv) #50%js)
           eq_refl eq_refl eq_refl).
Defined.
